(** * Port-scan detector: frame dissection, contact table, expiry and
      fan-out rate analysis

    A shallow embedding of [Sniffer.py], [DictCleaner.py] and
    [FanOutRateCalculator.py].

    Conventions of the embedding:
    - a Python [bytes] object is a [list byte]; slicing [b[:n]] is [take n b]
      and [b[n:]] is [drop n b];
    - Python integers are [Z] (or [N] where they come from a byte);
    - [time.time()] readings and the rates obtained with [/] are exact
      rationals ([Q]);
    - a [dict] is a [gmap]; the order in which a [dict] is iterated is the
      order of [map_to_list];
    - a raised exception is a value of [result]; code that mutates the shared
      dictionary and may raise returns the dictionary next to the result;
    - each [while self.is_running] loop consumes a finite trace of what the
      outside world supplies to its iterations; the flag is cleared by the
      driver when the trace ends. *)

From Stdlib Require Import ZArith QArith Lia Lqa Strings.Ascii Strings.Byte.
From Stdlib Require Import DecimalString HexadecimalString.
From stdpp Require Import gmap strings list fin_maps.

Local Open Scope Z_scope.

(** ** Exceptions *)

Inductive exn : Type :=
| StructError   (* struct.error: buffer of the wrong size *)
| ValueError    (* tuple unpacking of the wrong arity *)
| KeyError.     (* del d[k] on a missing key *)

Inductive result (A : Type) : Type :=
| Ok (a : A)
| Raise (e : exn).
Arguments Ok {A} a.
Arguments Raise {A} e.

Definition bytes := list byte.

(** A computation that reads and mutates a shared object of type [S] and may
    raise: the object survives the exception, as the Python heap does. *)
Definition M (S A : Type) : Type := S -> result A * S.

#[export] Instance M_ret {S} : MRet (M S) := fun A a s => (Ok a, s).
#[export] Instance M_bind {S} : MBind (M S) := fun A B f c s =>
  match c s with
  | (Ok a, s') => f a s'
  | (Raise e, s') => (Raise e, s')
  end.

(** A pure call whose exception, if any, propagates. *)
Definition lift {S A} (r : result A) : M S A := fun s => (r, s).

(** Python comparisons on rationals. *)
Definition Qltb (a b : Q) : bool :=
  match Qcompare a b with Lt => true | _ => false end.
Definition Qgtb (a b : Q) : bool := Qltb b a.

(** A flow key is the tuple [(src_ip, dest_ip, dest_port)]; the shared
    dictionary [first_contacts] maps it to the time of the last packet. *)
Definition flow_key : Type := string * string * Z.
Abbreviation contacts := (gmap flow_key Q).

Module Sniffer.

(** ** [struct.unpack] with a network-order ('!') format *)

Inductive fmt_item : Type :=
| Pad (n : nat)      (* 'nx' : n pad bytes, no value *)
| Str (n : nat)      (* 'ns' : n raw bytes *)
| UByte              (* 'B'  : unsigned char *)
| UShort.            (* 'H'  : unsigned short, big-endian *)

Inductive value : Type :=
| VBytes (b : bytes)
| VInt (z : Z).

Definition item_size (it : fmt_item) : nat :=
  match it with
  | Pad n => n
  | Str n => n
  | UByte => 1
  | UShort => 2
  end.

Definition calcsize (fmt : list fmt_item) : nat :=
  foldr (fun it acc => (item_size it + acc)%nat) 0%nat fmt.

Definition byte_val (b : byte) : Z := Z.of_N (Byte.to_N b).

(** Big-endian value of a byte string. *)
Definition be_int (bs : bytes) : Z :=
  foldl (fun acc b => Z.lor (Z.shiftl acc 8) (byte_val b)) 0 bs.

Fixpoint unpack_items (fmt : list fmt_item) (buf : bytes) : list value :=
  match fmt with
  | [] => []
  | Pad n :: fmt' => unpack_items fmt' (drop n buf)
  | Str n :: fmt' => VBytes (take n buf) :: unpack_items fmt' (drop n buf)
  | UByte :: fmt' => VInt (be_int (take 1 buf)) :: unpack_items fmt' (drop 1 buf)
  | UShort :: fmt' => VInt (be_int (take 2 buf)) :: unpack_items fmt' (drop 2 buf)
  end.

(** [struct.unpack(fmt, buf)] raises [struct.error] unless the buffer has
    exactly [calcsize fmt] bytes. *)
Definition struct_unpack (fmt : list fmt_item) (buf : bytes) : result (list value) :=
  if Nat.eqb (length buf) (calcsize fmt) then Ok (unpack_items fmt buf)
  else Raise StructError.

(** ** [socket.htons] on a little-endian host

    The capture loop tests [protocol == 8] for IPv4 (0x0800 on the wire), so
    the code is written for a host on which [htons] swaps the two bytes. *)
Definition htons (x : Z) : Z :=
  Z.lor (Z.shiftl (Z.land x 255) 8) (Z.land (Z.shiftr x 8) 255).

(** ** String formatting *)

(** ['{:x}'.format(n)] *)
Definition format_x (n : N) : string :=
  HexadecimalString.NilZero.string_of_uint (N.to_hex_uint n).

(** Left padding with ['0'] up to [width] characters. *)
Definition zero_pad (width : nat) (s : string) : string :=
  String.concat EmptyString (replicate (width - String.length s) "0"%string)
  +:+ s.

(** ['{:02x}'.format(n)] *)
Definition format_02x (n : N) : string := zero_pad 2 (format_x n).

(** [str(n)] for a non-negative integer. *)
Definition str (n : N) : string :=
  DecimalString.NilZero.string_of_uint (N.to_uint n).

Definition upper_ascii (c : Ascii.ascii) : Ascii.ascii :=
  let n := Ascii.N_of_ascii c in
  if ((97 <=? n) && (n <=? 122))%N then Ascii.ascii_of_N (n - 32) else c.

(** [s.upper()] on ASCII text. *)
Fixpoint upper (s : string) : string :=
  match s with
  | EmptyString => EmptyString
  | String c s' => String (upper_ascii c) (upper s')
  end.

(** [Sniffer.mac_format] *)
Definition mac_format (mac : bytes) : string :=
  let mac := map (fun b => format_02x (Byte.to_N b)) mac in
  upper (String.concat EmptyString mac).

(** [Sniffer.ipv4_format] *)
Definition ipv4_format (address : bytes) : string :=
  String.concat "." (map (fun b => str (Byte.to_N b)) address).

(** ** Dissectors *)

(** [Sniffer.ethernet_dissect] *)
Definition ethernet_dissect (ethernet_data : bytes)
  : result (string * string * Z * bytes) :=
  match struct_unpack [Str 6; Str 6; UShort] (take 14 ethernet_data) with
  | Ok [VBytes dest_mac; VBytes src_mac; VInt protocol] =>
      Ok (mac_format dest_mac, mac_format src_mac, htons protocol,
          drop 14 ethernet_data)
  | Ok _ => Raise ValueError
  | Raise e => Raise e
  end.

(** [Sniffer.ipv4_dissect] *)
Definition ipv4_dissect (ip_data : bytes)
  : result (Z * string * string * bytes) :=
  match struct_unpack [Pad 9; UByte; Pad 2; Str 4; Str 4] (take 20 ip_data) with
  | Ok [VInt ip_protocol; VBytes source_ip; VBytes target_ip] =>
      Ok (ip_protocol, ipv4_format source_ip, ipv4_format target_ip,
          drop 20 ip_data)
  | Ok _ => Raise ValueError
  | Raise e => Raise e
  end.

(** [Sniffer.tcp_dissect] *)
Definition tcp_dissect (transport_data : bytes) : result (Z * Z) :=
  match struct_unpack [UShort; UShort] (take 4 transport_data) with
  | Ok [VInt source_port; VInt dest_port] => Ok (source_port, dest_port)
  | Ok _ => Raise ValueError
  | Raise e => Raise e
  end.

(** [Sniffer.udp_dissect] *)
Definition udp_dissect (transport_data : bytes) : result (Z * Z) :=
  match struct_unpack [UShort; UShort] (take 4 transport_data) with
  | Ok [VInt source_port; VInt dest_port] => Ok (source_port, dest_port)
  | Ok _ => Raise ValueError
  | Raise e => Raise e
  end.

(** [Sniffer.icmp_dissect] *)
Definition icmp_dissect (transport_data : bytes) : result (Z * Z) :=
  match struct_unpack [UByte; UByte] (take 2 transport_data) with
  | Ok [VInt icmp_type; VInt icmp_code] => Ok (icmp_type, icmp_code)
  | Ok _ => Raise ValueError
  | Raise e => Raise e
  end.

(** ** The capture loop *)

(** [self.first_contacts[key] = time.time()] under the lock. *)
Definition upsert (key : flow_key) (now : Q) : M contacts unit :=
  fun first_contacts => (Ok tt, <[key := now]> first_contacts).

(** The body of the loop in [Sniffer.run] once [recvfrom] has returned
    [ethernet_data]; [now] is what [time.time()] returns at the upsert.
    [contact] and [dest_port] are one option: [None] is [contact = False]
    (and [dest_port] unbound). *)
Definition handle_frame (ethernet_data : bytes) (now : Q) : M contacts unit :=
  '(dest_mac, src_mac, protocol, ip_data) ← lift (ethernet_dissect ethernet_data);
  if protocol =? 8 then
    '(ip_protocol, src_ip, dest_ip, transport_data) ← lift (ipv4_dissect ip_data);
    contact ←
      (if ip_protocol =? 6 then
         '(src_port, dest_port) ← lift (tcp_dissect transport_data);
         mret (Some dest_port)
       else if ip_protocol =? 17 then
         '(src_port, dest_port) ← lift (udp_dissect transport_data);
         mret (Some dest_port)
       else mret None);
    match contact with
    | Some dest_port => upsert (src_ip, dest_ip, dest_port) now
    | None => mret tt
    end
  else mret tt.

(** What one call of [packets.recvfrom] yields. *)
Inductive recv_event : Type :=
| RecvTimeout                                   (* socket.timeout *)
| RecvFrame (ethernet_data : bytes) (now : Q).

(** [Sniffer.run]: one loop iteration per event of the trace.  Only
    [socket.timeout] is caught, so any other exception leaves the loop. *)
Fixpoint run (trace : list recv_event) : M contacts unit :=
  match trace with
  | [] => mret tt
  | RecvTimeout :: trace' => run trace'
  | RecvFrame ethernet_data now :: trace' =>
      handle_frame ethernet_data now ≫= fun _ => run trace'
  end.

End Sniffer.

Module DictCleaner.

(** Default of the constructor argument [max_age_seconds]. *)
Definition default_max_age_seconds : Q := 300.

(** First loop of an iteration: the expired keys, in iteration order.
    Iterating over the pairs of [map_to_list] stands for
    [for key in d.keys()] followed by [d[key]]. *)
Definition keys_to_remove (max_age_seconds current_time : Q)
    (first_contacts : contacts) : list flow_key :=
  foldl (fun acc kv =>
           if Qgtb (current_time - kv.2)%Q max_age_seconds
           then acc ++ [kv.1] else acc)
        [] (map_to_list first_contacts).

(** [del first_contacts[key]] *)
Definition del (key : flow_key) : M contacts unit :=
  fun first_contacts =>
    match first_contacts !! key with
    | Some _ => (Ok tt, delete key first_contacts)
    | None => (Raise KeyError, first_contacts)
    end.

(** Second loop of an iteration. *)
Fixpoint remove_keys (keys : list flow_key) : M contacts unit :=
  match keys with
  | [] => mret tt
  | key :: keys' => del key ≫= fun _ => remove_keys keys'
  end.

(** One iteration of [DictCleaner.run], with [current_time] the reading of
    [time()] taken at its start. *)
Definition iteration (max_age_seconds current_time : Q) : M contacts unit :=
  fun first_contacts =>
    remove_keys (keys_to_remove max_age_seconds current_time first_contacts)
                first_contacts.

End DictCleaner.

Module FanOutRateCalculator.

Definition ages : list Q := [1%Q; 60%Q; 300%Q].
Definition max_connections : list Z := [5; 100; 300].

Abbreviation rates := (gmap string (list Z)).
Abbreviation blacklist_t := (gmap string (list nat)).

(** [d.get(key, default)] *)
Definition get {V} (d : gmap string V) (key : string) (dflt : V) : V :=
  default dflt (d !! key).

(** The inner loop of the scan for one key of [first_contacts]: [l[i]] is
    [nth i l 0] and [l[i] += 1] is [alter Z.succ i l]; [i] ranges over
    [range(len(ages))] and every stored list has three elements. *)
Definition count_key (current_time : Q) (source : string) (timestamp : Q)
    (source_connections : rates) : rates :=
  foldl (fun source_connections i =>
           if Qltb (current_time - timestamp)%Q (nth i ages 0%Q) then
             let fan_out_rates := get source_connections source [0; 0; 0] in
             let fan_out_rates := alter Z.succ i fan_out_rates in
             <[source := fan_out_rates]> source_connections
           else source_connections)
        source_connections (seq 0 (length ages)).

(** The scan under the lock: [source_connections] after the loop over the
    keys of [first_contacts]. *)
Definition scan (current_time : Q) (first_contacts : contacts) : rates :=
  foldl (fun source_connections kv =>
           count_key current_time kv.1.1.1 kv.2 source_connections)
        ∅ (map_to_list first_contacts).

(** The loop over [range(len(max_connections))] for one source: the index at
    which it breaks, if it does. *)
Fixpoint compare_thresholds (tiers : list nat) (counts : list Z)
    (listed : list nat) : option nat :=
  match tiers with
  | [] => None
  | i :: tiers' =>
      if nth i counts 0 >? nth i max_connections 0 then
        if bool_decide (i ∈ listed) then compare_thresholds tiers' counts listed
        else Some i
      else compare_thresholds tiers' counts listed
  end.

(** What is printed for a detected source.  [alert_tier] is the loop index
    [i] at the break; the reason line prints [ages[i]], the count and the
    threshold at that index. *)
Record alert : Type := {
  alert_source : string;
  alert_tier : nat;
  reason_age : Q;
  reason_count : Z;
  reason_max : Z;
  fanout_per_1s : Q;
  fanout_per_1m : Q;
  fanout_per_5m : Z
}.

Definition report (key : string) (counts : list Z) (i : nat) : alert :=
  {| alert_source := key;
     alert_tier := i;
     reason_age := nth i ages 0%Q;
     reason_count := nth i counts 0;
     reason_max := nth i max_connections 0;
     fanout_per_1s := (inject_Z (nth 2 counts 0%Z) / 300)%Q;
     fanout_per_1m := (inject_Z (nth 1 counts 0%Z) / 5)%Q;
     fanout_per_5m := nth 0 counts 0 |}.

(** The body of the loop over [source_connections.keys()]: the state is what
    has been printed so far and the blacklist. *)
Definition check_source (st : list alert * blacklist_t)
    (kc : string * list Z) : list alert * blacklist_t :=
  let '(printed, blacklist) := st in
  let '(key, counts) := kc in
  match compare_thresholds (seq 0 (length max_connections)) counts
                           (get blacklist key []) with
  | Some i => (printed ++ [report key counts i],
               <[key := get blacklist key [] ++ [i]]> blacklist)
  | None => (printed, blacklist)
  end.

(** One iteration of [FanOutRateCalculator.run]: [first_contacts] is the
    shared dictionary as found under the lock and [current_time] the reading
    of [time()] taken there. *)
Definition cycle (first_contacts : contacts) (current_time : Q)
    (blacklist : blacklist_t) : list alert * blacklist_t :=
  let source_connections := scan current_time first_contacts in
  foldl check_source ([], blacklist) (map_to_list source_connections).

(** The loop, from a given blacklist: the alerts of each iteration.  The
    other workers change the dictionary between iterations, so the trace
    gives the dictionary and the clock seen by each iteration. *)
Fixpoint run_from (blacklist : blacklist_t) (trace : list (contacts * Q))
  : list (list alert) :=
  match trace with
  | [] => []
  | (first_contacts, current_time) :: trace' =>
      let '(printed, blacklist') := cycle first_contacts current_time blacklist in
      printed :: run_from blacklist' trace'
  end.

(** [FanOutRateCalculator.run]: the blacklist starts empty. *)
Definition run (trace : list (contacts * Q)) : list (list alert) :=
  run_from ∅ trace.

End FanOutRateCalculator.

(** * Specification vocabulary

    The notions the statements below are phrased in: how a frame is built
    from field values, how the formatted addresses are read back, which
    frames are tracked, and how many flows of a source fall in a window. *)

Module FrameSpec.
Import Sniffer.

Definition byte_of_Z (z : Z) : byte := default x00 (Byte.of_N (Z.to_N z)).

(** Two bytes, most significant first. *)
Definition be16 (x : Z) : bytes := [byte_of_Z (x / 256); byte_of_Z (x mod 256)].

(** Exchange of the two bytes of a 16-bit number. *)
Definition byte_swap16 (x : Z) : Z := (x mod 256) * 256 + x / 256.

(** The field values a frame is built from.  [f_ip_head] is the first nine
    bytes of the IPv4 header (version to time-to-live). *)
Record frame_fields : Type := {
  f_dest_mac : bytes;
  f_src_mac : bytes;
  f_ethertype : Z;
  f_ip_head : bytes;
  f_ip_protocol : Z;
  f_ip_checksum : bytes;
  f_source_ip : bytes;
  f_target_ip : bytes;
  f_source_port : Z;
  f_dest_port : Z;
  f_payload : bytes
}.

Definition well_formed (f : frame_fields) : Prop :=
  length (f_dest_mac f) = 6%nat /\ length (f_src_mac f) = 6%nat /\
  0 <= f_ethertype f < 65536 /\
  length (f_ip_head f) = 9%nat /\ 0 <= f_ip_protocol f < 256 /\
  length (f_ip_checksum f) = 2%nat /\
  length (f_source_ip f) = 4%nat /\ length (f_target_ip f) = 4%nat /\
  0 <= f_source_port f < 65536 /\ 0 <= f_dest_port f < 65536.

Definition build_segment (f : frame_fields) : bytes :=
  be16 (f_source_port f) ++ be16 (f_dest_port f) ++ f_payload f.

Definition build_packet (f : frame_fields) : bytes :=
  f_ip_head f ++ [byte_of_Z (f_ip_protocol f)] ++ f_ip_checksum f ++
  f_source_ip f ++ f_target_ip f ++ build_segment f.

Definition build_frame (f : frame_fields) : bytes :=
  f_dest_mac f ++ f_src_mac f ++ be16 (f_ethertype f) ++ build_packet f.

(** Reading a MAC text back: pairs of hexadecimal digits, upper case only,
    nothing in between. *)
Definition upper_hex_digit (n : N) : ascii :=
  if (n <? 10)%N then ascii_of_N (48 + n) else ascii_of_N (55 + n).

Definition hex_upper_val (c : ascii) : option N :=
  let n := N_of_ascii c in
  if ((48 <=? n) && (n <=? 57))%N then Some (n - 48)%N
  else if ((65 <=? n) && (n <=? 70))%N then Some (n - 55)%N
  else None.

Fixpoint parse_mac (s : string) : option bytes :=
  match s with
  | EmptyString => Some []
  | String hi (String lo s') =>
      h ← hex_upper_val hi; l ← hex_upper_val lo;
      b ← Byte.of_N (16 * h + l); m ← parse_mac s'; Some (b :: m)
  | String _ EmptyString => None
  end.

(** Reading a dotted-decimal text back: decimal numbers below 256 separated
    by single dots. *)
Definition digit_val (c : ascii) : option N :=
  let n := N_of_ascii c in
  if ((48 <=? n) && (n <=? 57))%N then Some (n - 48)%N else None.

Fixpoint parse_dotted_from (s : string) (cur : option N) (acc : bytes)
  : option bytes :=
  match s with
  | EmptyString => n ← cur; b ← Byte.of_N n; Some (rev (b :: acc))
  | String c s' =>
      if Ascii.eqb c "."%char then
        n ← cur; b ← Byte.of_N n; parse_dotted_from s' None (b :: acc)
      else
        d ← digit_val c;
        parse_dotted_from s' (Some (10 * default 0%N cur + d)%N) acc
  end.

Definition parse_ipv4 (s : string) : option bytes := parse_dotted_from s None [].

(** A frame is tracked under [key] when it dissects as IPv4 carrying TCP or
    UDP with that source address, destination address and destination
    port. *)
Definition tracked (ethernet_data : bytes) (key : flow_key) : Prop :=
  exists dest_mac src_mac ip_data ip_protocol transport_data src_port,
    ethernet_dissect ethernet_data = Ok (dest_mac, src_mac, 8, ip_data) /\
    ipv4_dissect ip_data = Ok (ip_protocol, key.1.1, key.1.2, transport_data) /\
    ((ip_protocol = 6 /\ tcp_dissect transport_data = Ok (src_port, key.2)) \/
     (ip_protocol = 17 /\ udp_dissect transport_data = Ok (src_port, key.2))).

End FrameSpec.

Module RateSpec.
Import FanOutRateCalculator.

#[export] Instance Qlt_decision (a b : Q) : Decision (a < b)%Q :=
  match Qlt_le_dec a b with
  | left H => left H
  | right H => right (Qle_not_lt _ _ H)
  end.

(** An entry of the dictionary is a flow of [source] younger than [window]
    at [current_time]. *)
Definition in_window (current_time window : Q) (source : string)
    (kv : flow_key * Q) : Prop :=
  kv.1.1.1 = source /\ (current_time - kv.2 < window)%Q.

#[export] Instance in_window_decision current_time window source kv :
  Decision (in_window current_time window source kv).
Proof. unfold in_window. apply _. Defined.

(** The number of flows of [source] younger than [window]. *)
Definition fan_out (current_time window : Q) (source : string)
    (first_contacts : contacts) : Z :=
  Z.of_nat (size (filter (in_window current_time window source) first_contacts)).

Definition fan_out_list (current_time window : Q) (source : string)
    (l : list (flow_key * Q)) : Z :=
  Z.of_nat (length (filter (in_window current_time window source) l)).

(** What the scan stores for a source with the given three counts. *)
Definition stored (c1 c60 c300 : Z) : option (list Z) :=
  if c300 =? 0 then None else Some [c1; c60; c300].

Definition scan_list (current_time : Q) (l : list (flow_key * Q)) : rates :=
  foldl (fun source_connections kv =>
           count_key current_time kv.1.1.1 kv.2 source_connections) ∅ l.

(** The count of tier [i] is above its threshold. *)
Definition exceeded (counts : list Z) (i : nat) : Prop :=
  nth i counts 0 > nth i max_connections 0.

(** A tier is reportable when it is exceeded and not listed yet. *)
Definition reportable (counts : list Z) (listed : list nat) (i : nat) : Prop :=
  exceeded counts i /\ i ∉ listed.

(** What the loop body prints for one entry of [source_connections]. *)
Definition detect (blacklist : blacklist_t) (kc : string * list Z)
  : option alert :=
  report kc.1 kc.2 <$>
  compare_thresholds (seq 0 (length max_connections)) kc.2
                     (get blacklist kc.1 []).

Definition pair_of (a : alert) : string * nat := (alert_source a, alert_tier a).

End RateSpec.

Module CleanerSpec.

Definition expired (max_age_seconds current_time : Q) (kv : flow_key * Q) : bool :=
  Qgtb (current_time - kv.2)%Q max_age_seconds.

End CleanerSpec.

(** * Concrete traffic used in the examples *)

Module Examples.
Import Sniffer FrameSpec.

Definition scanner : string := "10.0.0.5".
Definition target : string := "192.168.1.10".

Definition tcp_fields : frame_fields :=
  {| f_dest_mac := [x00; x1a; x2b; x3c; x4d; x5e];
     f_src_mac := [xff; xee; xdd; xcc; xbb; xaa];
     f_ethertype := 2048;
     f_ip_head := [x45; x00; x00; x28; x00; x01; x00; x00; x40];
     f_ip_protocol := 6;
     f_ip_checksum := [x00; x00];
     f_source_ip := [x0a; x00; x00; x05];
     f_target_ip := [xc0; xa8; x01; x0a];
     f_source_port := 1234;
     f_dest_port := 80;
     f_payload := [x00; x00; x00; x00] |}.

Definition tcp_frame : bytes := build_frame tcp_fields.

(** The first ten bytes of a frame: shorter than the Ethernet header. *)
Definition short_frame : bytes := take 10 tcp_frame.

(** An ICMP echo request and an ARP frame. *)
Definition icmp_frame : bytes :=
  [x00; x1a; x2b; x3c; x4d; x5e; xff; xee; xdd; xcc; xbb; xaa; x08; x00;
   x45; x00; x00; x1c; x00; x01; x00; x00; x40; x01; x00; x00;
   x0a; x00; x00; x05; xc0; xa8; x01; x0a; x08; x00; xf7; xff].

Definition arp_frame : bytes :=
  [xff; xff; xff; xff; xff; xff; xff; xee; xdd; xcc; xbb; xaa; x08; x06;
   x00; x01; x08; x00; x06; x04; x00; x01].

Definition flow (port : Z) : flow_key := (scanner, target, port).

(** Flows of [scanner] to the given ports, all seen at [timestamp]. *)
Definition flows_at (timestamp : Q) (ports : list Z) : list (flow_key * Q) :=
  map (fun port => (flow port, timestamp)) ports.

(** Six flows seen half a second before time 1000.5. *)
Definition six_flows : contacts := list_to_map (flows_at 1000 [1; 2; 3; 4; 5; 6]).


(** Five flows seen half a second before time 1000.5. *)
Definition five_flows : contacts := list_to_map (flows_at 1000 [1; 2; 3; 4; 5]).

(** Six flows aged 0.5 s, one aged 30.5 s and one aged 120.5 s at time
    1000.5. *)
Definition mixed_flows : contacts :=
  list_to_map (flows_at 1000 [1; 2; 3; 4; 5; 6] ++
               flows_at 970 [7] ++ flows_at 880 [8]).

(** One flow aged 30 s at time 1000. *)
Definition one_flow : contacts := list_to_map (flows_at 970 [7]).

(** One flow aged 400 s and one aged 100 s at time 1000. *)
Definition old_and_new : contacts :=
  list_to_map (flows_at 600 [9] ++ flows_at 900 [10]).

Definition snapshot_time : Q := 2001 # 2.

End Examples.

(** * The driver and the traffic generator *)

Module PSDetector.

(** [x in s] on strings: [x] occurs in [s] as a substring. *)
Fixpoint str_in (x s : string) : bool :=
  String.prefix x s ||
  match s with
  | EmptyString => false
  | String _ s' => str_in x s'
  end.

Inductive worker : Type := SnifferThread | CleanupThread | FanOutThread.

(** What the driver does to the outside world, in order. *)
Inductive driver_event : Type :=
| Start (w : worker)                 (* w.start() *)
| Output (text : string)              (* print(text) *)
| Input (line : string)              (* input() returned line *)
| ClearRunning (w : worker)          (* w.is_running = False *)
| Join (w : worker).                 (* w.join() *)

Inductive outcome : Type :=
| Returned
| EOFError.   (* input() at the end of the input *)

(** The [while True] loop of [detect_ps]: [lines] is what is left on the
    console; the result says whether the loop was left by [break]. *)
Fixpoint wait_for_stop (lines : list string) : list driver_event * bool :=
  match lines with
  | [] => ([], false)
  | x :: lines' =>
      if str_in x "xX" then
        ([Input x; Output "[*] Terminating Threads..."], true)
      else
        let '(events, stopped) := wait_for_stop lines' in
        (Input x :: events, stopped)
  end.

(** [detect_ps] *)
Definition detect_ps (lines : list string) : list driver_event * outcome :=
  let started :=
    [Start SnifferThread; Start CleanupThread; Start FanOutThread;
     Output "[+] Enter 'x' to Stop Detecting"] in
  let '(events, stopped) := wait_for_stop lines in
  if stopped then
    (started ++ events ++
     [ClearRunning SnifferThread; ClearRunning CleanupThread;
      ClearRunning FanOutThread;
      Join SnifferThread; Join CleanupThread; Join FanOutThread],
     Returned)
  else (started ++ events, EOFError).

End PSDetector.

Module PortScanner.











End PortScanner.

(** * Further specification vocabulary *)

Module CaptureSpec.
Import Sniffer.

(** Byte [n] of the frame is [b]. *)
Definition byte_at (n : nat) (d : bytes) (b : byte) : bool :=
  match d !! n with
  | Some c => Byte.eqb c b
  | None => false
  end.

(** Bytes 12 and 13 are 08 00. *)
Definition is_ipv4 (d : bytes) : bool := byte_at 12 d x08 && byte_at 13 d x00.

(** Byte 23 is 6 or 17. *)
Definition is_tcp_or_udp (d : bytes) : bool := byte_at 23 d x06 || byte_at 23 d x11.

(** The frame is cut short at a header the loop body reads. *)
Definition truncated (d : bytes) : bool :=
  (length d <? 14)%nat ||
  (is_ipv4 d && ((length d <? 34)%nat ||
                 (is_tcp_or_udp d && (length d <? 38)%nat))).

(** The flow key read at fixed offsets of the frame. *)
Definition frame_key (d : bytes) : option flow_key :=
  if (38 <=? length d)%nat && is_ipv4 d && is_tcp_or_udp d then
    Some (ipv4_format (take 4 (drop 26 d)), ipv4_format (take 4 (drop 30 d)),
          be_int (take 2 (drop 36 d)))
  else None.

Definition captured (ev : recv_event) : option (flow_key * Q) :=
  match ev with
  | RecvTimeout => None
  | RecvFrame d now => (fun key => (key, now)) <$> frame_key d
  end.

Definition is_frame (ev : recv_event) : bool :=
  match ev with
  | RecvTimeout => false
  | RecvFrame _ _ => true
  end.

Definition event_raises (ev : recv_event) : bool :=
  match ev with
  | RecvTimeout => false
  | RecvFrame d _ => truncated d
  end.

(** The events the loop gets to process: those before the first one that
    raises. *)
Fixpoint before_raise (trace : list recv_event) : list recv_event :=
  match trace with
  | [] => []
  | ev :: trace' =>
      if event_raises ev then [] else ev :: before_raise trace'
  end.

(** The dictionary after the given assignments, in order. *)
Definition upserts (kvs : list (flow_key * Q)) (first_contacts : contacts)
  : contacts :=
  foldl (fun m kv => <[kv.1 := kv.2]> m) first_contacts kvs.

End CaptureSpec.

Module ExpirySpec.
Import RateSpec.

(** The entry is not older than [max_age_seconds] at [current_time]. *)
Definition fresh (max_age_seconds current_time : Q) (kv : flow_key * Q) : Prop :=
  ~ (max_age_seconds < current_time - kv.2)%Q.

#[export] Instance fresh_decision max_age_seconds current_time kv :
  Decision (fresh max_age_seconds current_time kv).
Proof. unfold fresh. apply _. Defined.

End ExpirySpec.

(** * More concrete traffic *)

Module MoreExamples.
Import Sniffer FrameSpec.

(** 301 flows of [Examples.scanner], to ports 1 to 301, all seen at time
    1000. *)
Definition many_flows : contacts :=
  list_to_map (Examples.flows_at 1000 (map Z.of_nat (seq 1 301))).

(** A TCP frame from 10.0.0.5 to 192.168.1.10 and the given port. *)
Definition tcp_frame_to (port : Z) : bytes :=
  build_frame
    {| f_dest_mac := [x00; x1a; x2b; x3c; x4d; x5e];
       f_src_mac := [xff; xee; xdd; xcc; xbb; xaa];
       f_ethertype := 2048;
       f_ip_head := [x45; x00; x00; x28; x00; x01; x00; x00; x40];
       f_ip_protocol := 6;
       f_ip_checksum := [x00; x00];
       f_source_ip := [x0a; x00; x00; x05];
       f_target_ip := [xc0; xa8; x01; x0a];
       f_source_port := 1234;
       f_dest_port := port;
       f_payload := [] |}.

(** Six frames to ports 1 to 6 received at time 1000, a receive timeout
    among them. *)
Definition six_frames : list recv_event :=
  [RecvFrame (tcp_frame_to 1) 1000; RecvFrame (tcp_frame_to 2) 1000;
   RecvTimeout;
   RecvFrame (tcp_frame_to 3) 1000; RecvFrame (tcp_frame_to 4) 1000;
   RecvFrame (tcp_frame_to 5) 1000; RecvFrame (tcp_frame_to 6) 1000].

End MoreExamples.

Module ScanSpec.
Import PortScanner.







End ScanSpec.

(** * Auxiliary lemmas *)

Import Sniffer FrameSpec RateSpec CleanerSpec FanOutRateCalculator.

Implicit Types (now current_time max_age_seconds timestamp window : Q).
Implicit Types (first_contacts : contacts) (key : flow_key) (keys : list flow_key).
Implicit Types (ethernet_data : bytes) (source : string) (counts : list Z).
Implicit Types (blacklist : blacklist_t) (listed : list nat).

(** ** Bytes and byte order *)

Lemma byte_val_of_Z z : 0 <= z < 256 -> byte_val (byte_of_Z z) = z.
Proof.
  intros Hz. unfold byte_val, byte_of_Z.
  destruct (Byte.of_N (Z.to_N z)) as [b|] eqn:Hb.
  - simpl. apply Byte.to_of_N in Hb. rewrite Hb. lia.
  - exfalso. pose proof (Byte.to_of_N_option_map (Z.to_N z)) as H.
    rewrite Hb in H. simpl in H.
    destruct (N.leb_spec (Z.to_N z) 255); [discriminate | lia].
Qed.

Lemma byte_val_range b : 0 <= byte_val b < 256.
Proof. unfold byte_val. pose proof (Byte.to_N_bounded b). lia. Qed.

Lemma lor_shiftl_8 a b : 0 <= b < 256 -> Z.lor (Z.shiftl a 8) b = a * 256 + b.
Proof.
  intros Hb. rewrite Z.shiftl_mul_pow2 by lia. change (2 ^ 8) with 256.
  symmetry. apply Z.add_nocarry_lor. apply Z.bits_inj'. intros n Hn.
  rewrite Z.land_spec, Z.bits_0.
  destruct (Z.ltb_spec n 8).
  - change 256 with (2 ^ 8). rewrite Z.mul_pow2_bits_low by lia. reflexivity.
  - rewrite <- (Z.mod_small b (2 ^ 8)) by (change (2 ^ 8) with 256; lia).
    rewrite Z.mod_pow2_bits_high by lia. apply andb_false_r.
Qed.

Lemma be_int_1 a : be_int [a] = byte_val a.
Proof.
  unfold be_int. simpl. pose proof (byte_val_range a).
  rewrite lor_shiftl_8 by lia. lia.
Qed.

Lemma be_int_2 a b : be_int [a; b] = byte_val a * 256 + byte_val b.
Proof.
  unfold be_int. simpl.
  pose proof (byte_val_range a). pose proof (byte_val_range b).
  rewrite !lor_shiftl_8 by lia. lia.
Qed.

Lemma be_int_be16 x : 0 <= x < 65536 -> be_int (be16 x) = x.
Proof.
  intros Hx. unfold be16. rewrite be_int_2.
  assert (0 <= x / 256 < 256) as Hq.
  { split; [apply Z.div_pos; lia | apply Z.div_lt_upper_bound; lia]. }
  pose proof (Z.mod_pos_bound x 256 ltac:(lia)) as Hr.
  rewrite !byte_val_of_Z by lia.
  pose proof (Z.div_mod x 256 ltac:(lia)). lia.
Qed.

Lemma htons_swap x : 0 <= x < 65536 -> htons x = byte_swap16 x.
Proof.
  intros Hx. unfold htons, byte_swap16.
  change 255 with (Z.ones 8). rewrite !Z.land_ones by lia.
  rewrite Z.shiftr_div_pow2 by lia. change (2 ^ 8) with 256.
  assert (0 <= x / 256 < 256) as Hq.
  { split; [apply Z.div_pos; lia | apply Z.div_lt_upper_bound; lia]. }
  rewrite (Z.mod_small (x / 256)) by lia.
  apply lor_shiftl_8. lia.
Qed.

(** ** Formatted addresses read back *)

Lemma upper_app s1 s2 : upper (s1 +:+ s2) = upper s1 +:+ upper s2.
Proof.
  induction s1 as [|c s1 IH]; [reflexivity|].
  change (String (upper_ascii c) (upper (s1 +:+ s2)) =
          String (upper_ascii c) (upper s1 +:+ upper s2)).
  by rewrite IH.
Qed.

Lemma mac_format_byte b :
  upper (format_02x (Byte.to_N b)) =
  String (upper_hex_digit (Byte.to_N b / 16))
         (String (upper_hex_digit (Byte.to_N b mod 16)) EmptyString).
Proof. destruct b; vm_compute; reflexivity. Qed.

Lemma hex_upper_val_digit n :
  (n < 16)%N -> hex_upper_val (upper_hex_digit n) = Some n.
Proof.
  intros Hn. 
  assert (Hcases : In n (map N.of_nat (seq 0 16))).
  { apply in_map_iff. exists (N.to_nat n). split; [lia|]. apply in_seq. lia. }
  simpl in Hcases.
  repeat (destruct Hcases as [<-|Hcases]; [reflexivity|]). destruct Hcases.
Qed.

Lemma string_app_cons c s t : String c s +:+ t = String c (s +:+ t).
Proof. reflexivity. Qed.

Lemma string_app_empty_l t : EmptyString +:+ t = t.
Proof. reflexivity. Qed.

Lemma string_app_empty_r s : s +:+ EmptyString = s.
Proof.
  induction s as [|c s IH]; [reflexivity|].
  rewrite string_app_cons. by f_equal.
Qed.

Lemma concat_cons_empty s l :
  String.concat EmptyString (s :: l) = s +:+ String.concat EmptyString l.
Proof.
  destruct l; cbn [String.concat]; [| reflexivity].
  symmetry. apply string_app_empty_r.
Qed.

Lemma parse_mac_format mac : parse_mac (mac_format mac) = Some mac.
Proof.
  unfold mac_format. induction mac as [|b mac IH]; [reflexivity|].
  cbn [map]. rewrite concat_cons_empty, upper_app, mac_format_byte.
  rewrite !string_app_cons, string_app_empty_l. cbn [parse_mac].
  pose proof (Byte.to_N_bounded b) as Hb.
  rewrite !hex_upper_val_digit
    by (first [apply N.mod_lt; lia | apply N.Div0.div_lt_upper_bound; lia]).
  cbn [mbind option_bind].
  replace (16 * (Byte.to_N b / 16) + Byte.to_N b mod 16)%N with (Byte.to_N b)
    by (pose proof (N.div_mod (Byte.to_N b) 16); lia).
  rewrite Byte.of_to_N. cbn [mbind option_bind].
  rewrite IH. reflexivity.
Qed.

Lemma length_mac_format mac : String.length (mac_format mac) = (2 * length mac)%nat.
Proof.
  unfold mac_format. induction mac as [|b mac IH]; [reflexivity|].
  cbn [map]. rewrite concat_cons_empty, upper_app, mac_format_byte.
  rewrite !string_app_cons, string_app_empty_l.
  cbn [String.length length]. rewrite IH. lia.
Qed.

Lemma parse_dotted_str b rest acc :
  parse_dotted_from (str (Byte.to_N b) +:+ rest) None acc =
  parse_dotted_from rest (Some (Byte.to_N b)) acc.
Proof. destruct b; reflexivity. Qed.

Lemma parse_dotted_format address acc :
  address <> [] ->
  parse_dotted_from (ipv4_format address) None acc = Some (rev acc ++ address).
Proof.
  unfold ipv4_format. revert acc.
  induction address as [|b address IH]; intros acc Hne; [done|].
  destruct address as [|b' address].
  - cbn [map String.concat].
    rewrite <- (string_app_empty_r (str (Byte.to_N b))), parse_dotted_str.
    cbn [parse_dotted_from mbind option_bind]. rewrite Byte.of_to_N. reflexivity.
  - cbn [map].
    set (texts := map (fun b0 : byte => str (Byte.to_N b0)) address) in *.
    change (String.concat "." (str (Byte.to_N b) :: str (Byte.to_N b') :: texts))
      with (str (Byte.to_N b) +:+
            String "."%char (String.concat "." (str (Byte.to_N b') :: texts))).
    rewrite parse_dotted_str. cbn [parse_dotted_from Ascii.eqb].
    change (Ascii.eqb "."%char "."%char) with true. cbn [mbind option_bind].
    rewrite Byte.of_to_N. cbn [mbind option_bind].
    rewrite IH by done. cbn [rev]. by rewrite <- app_assoc.
Qed.

Lemma parse_ipv4_format address :
  address <> [] -> parse_ipv4 (ipv4_format address) = Some address.
Proof. intros H. unfold parse_ipv4. by rewrite parse_dotted_format. Qed.

(** ** Dissecting built frames *)

Ltac fixed_length l H :=
  repeat (destruct l as [|? l]; simpl in H; try discriminate H); clear H.

Lemma ethernet_dissect_build d s e rest :
  length d = 6%nat -> length s = 6%nat -> 0 <= e < 65536 ->
  ethernet_dissect (d ++ s ++ be16 e ++ rest) =
  Ok (mac_format d, mac_format s, byte_swap16 e, rest).
Proof.
  intros Hd Hs He. fixed_length d Hd. fixed_length s Hs.
  pose proof (be_int_be16 e He) as Hbe. unfold be16 in *.
  set (x := byte_of_Z (e / 256)) in *. set (y := byte_of_Z (e mod 256)) in *.
  clearbody x y.
  unfold ethernet_dissect, struct_unpack.
  cbn -[be_int htons mac_format]. rewrite ?take_0, ?drop_0.
  cbn -[be_int htons mac_format].
  rewrite Hbe, htons_swap by done.
  reflexivity.
Qed.

Lemma ipv4_dissect_build h p c s t rest :
  length h = 9%nat -> 0 <= p < 256 -> length c = 2%nat ->
  length s = 4%nat -> length t = 4%nat ->
  ipv4_dissect (h ++ [byte_of_Z p] ++ c ++ s ++ t ++ rest) =
  Ok (p, ipv4_format s, ipv4_format t, rest).
Proof.
  intros Hh Hp Hc Hs Ht.
  fixed_length h Hh. fixed_length c Hc. fixed_length s Hs. fixed_length t Ht.
  pose proof (byte_val_of_Z p Hp) as Hbv. rewrite <- be_int_1 in Hbv.
  set (x := byte_of_Z p) in *. clearbody x.
  unfold ipv4_dissect, struct_unpack.
  cbn -[be_int ipv4_format]. rewrite ?take_0, ?drop_0.
  cbn -[be_int ipv4_format]. rewrite Hbv. reflexivity.
Qed.

Lemma tcp_dissect_build sp dp rest :
  0 <= sp < 65536 -> 0 <= dp < 65536 ->
  tcp_dissect (be16 sp ++ be16 dp ++ rest) = Ok (sp, dp).
Proof.
  intros Hs Hd.
  pose proof (be_int_be16 sp Hs) as Hbs. pose proof (be_int_be16 dp Hd) as Hbd.
  unfold be16 in *.
  set (a := byte_of_Z (sp / 256)) in *. set (b := byte_of_Z (sp mod 256)) in *.
  set (c := byte_of_Z (dp / 256)) in *. set (d := byte_of_Z (dp mod 256)) in *.
  clearbody a b c d.
  unfold tcp_dissect, struct_unpack.
  cbn -[be_int]. rewrite ?take_0, ?drop_0. cbn -[be_int].
  rewrite Hbs, Hbd. reflexivity.
Qed.

Lemma udp_dissect_tcp transport_data :
  udp_dissect transport_data = tcp_dissect transport_data.
Proof. reflexivity. Qed.

(** ** The loop body of the capture worker *)

Lemma struct_unpack_short fmt n buf :
  (length buf < n)%nat -> calcsize fmt = n ->
  struct_unpack fmt (take n buf) = Raise StructError.
Proof.
  intros Hlen Hsize. unfold struct_unpack.
  rewrite length_take, Hsize.
  destruct (Nat.eqb_spec (n `min` length buf) n); [lia | reflexivity].
Qed.

Lemma ethernet_dissect_short ethernet_data :
  (length ethernet_data < 14)%nat ->
  ethernet_dissect ethernet_data = Raise StructError.
Proof.
  intros H. unfold ethernet_dissect.
  by rewrite (struct_unpack_short _ 14) by done.
Qed.

Lemma handle_frame_short ethernet_data now first_contacts :
  (length ethernet_data < 14)%nat ->
  handle_frame ethernet_data now first_contacts = (Raise StructError, first_contacts).
Proof.
  intros H. unfold handle_frame, mbind, M_bind, lift.
  by rewrite ethernet_dissect_short.
Qed.

Lemma handle_frame_cases ethernet_data now first_contacts :
  (exists r, handle_frame ethernet_data now first_contacts = (r, first_contacts) /\
             forall key, ~ tracked ethernet_data key) \/
  (exists key, tracked ethernet_data key /\
     handle_frame ethernet_data now first_contacts =
       (Ok tt, <[key := now]> first_contacts)).
Proof.
  unfold handle_frame, tracked, mbind, M_bind, lift, mret, M_ret, upsert.
  destruct (ethernet_dissect ethernet_data) as [[[[dm sm] proto] ip_data]|e].
  2: { left. eexists. split; [reflexivity|]. intros key (?&?&?&?&?&?&?&_). done. }
  destruct (Z.eqb_spec proto 8) as [->|Hp].
  2: { left. eexists. split; [reflexivity|].
       intros key (?&?&?&?&?&?&?&_). congruence. }
  destruct (ipv4_dissect ip_data) as [[[[p s] t] td]|e] eqn:Hi.
  2: { left. eexists. split; [reflexivity|].
       intros key (?&?&?&?&?&?&?&?&_). simplify_eq. congruence. }
  destruct (Z.eqb_spec p 6) as [->|Hp6].
  { destruct (tcp_dissect td) as [[sp dp]|e] eqn:Ht.
    - right. exists (s, t, dp). split; [|reflexivity].
      eexists _, _, _, _, _, _. split; [reflexivity|]. split; [exact Hi|].
      left. by split.
    - left. eexists. split; [reflexivity|].
      intros key (?&?&?&?&?&?&?&?&[[? ?]|[? ?]]); simplify_eq; congruence. }
  destruct (Z.eqb_spec p 17) as [->|Hp17].
  { destruct (udp_dissect td) as [[sp dp]|e] eqn:Ht.
    - right. exists (s, t, dp). split; [|reflexivity].
      eexists _, _, _, _, _, _. split; [reflexivity|]. split; [exact Hi|].
      right. by split.
    - left. eexists. split; [reflexivity|].
      intros key (?&?&?&?&?&?&?&?&[[? ?]|[? ?]]); simplify_eq; congruence. }
  left. eexists. split; [reflexivity|].
  intros key (?&?&?&?&?&?&?&?&[[? ?]|[? ?]]); simplify_eq; congruence.
Qed.

Lemma tracked_functional ethernet_data key1 key2 :
  tracked ethernet_data key1 -> tracked ethernet_data key2 -> key1 = key2.
Proof.
  intros (?&?&?&?&?&?&He1&Hi1&Ht1) (?&?&?&?&?&?&He2&Hi2&Ht2).
  destruct key1 as [[s1 t1] p1], key2 as [[s2 t2] p2]. simpl in *.
  rewrite He1 in He2. simplify_eq. rewrite Hi1 in Hi2. simplify_eq.
  destruct Ht1 as [[? Ht1]|[? Ht1]], Ht2 as [[? Ht2]|[? Ht2]];
    simplify_eq; try done; congruence.
Qed.

Lemma handle_frame_tracked ethernet_data key now first_contacts :
  tracked ethernet_data key ->
  handle_frame ethernet_data now first_contacts =
    (Ok tt, <[key := now]> first_contacts).
Proof.
  intros Htr.
  destruct (handle_frame_cases ethernet_data now first_contacts)
    as [(r & _ & Hno)|(key' & Htr' & Heq)].
  - by destruct (Hno key).
  - by rewrite (tracked_functional _ _ _ Htr Htr').
Qed.

(** ** Expired keys and their removal *)

Lemma Qltb_lt a b : Qltb a b = true <-> (a < b)%Q.
Proof.
  unfold Qltb. rewrite Qlt_alt.
  destruct (a ?= b)%Q; split; intros; congruence.
Qed.

Lemma Qgtb_lt a b : Qgtb a b = true <-> (b < a)%Q.
Proof. apply Qltb_lt. Qed.

Lemma keys_to_remove_acc max_age_seconds current_time
    (l : list (flow_key * Q)) acc :
  foldl (fun acc kv =>
           if Qgtb (current_time - kv.2)%Q max_age_seconds
           then acc ++ [kv.1] else acc) acc l =
  acc ++ (filter (fun kv => expired max_age_seconds current_time kv = true) l).*1.
Proof.
  revert acc. induction l as [|kv l IH]; intros acc.
  - by rewrite app_nil_r.
  - cbn [foldl]. rewrite IH, filter_cons.
    fold (expired max_age_seconds current_time kv).
    destruct (expired max_age_seconds current_time kv) eqn:E.
    + rewrite decide_True by done. rewrite fmap_cons, <- app_assoc. reflexivity.
    + rewrite decide_False by done. reflexivity.
Qed.

Lemma keys_to_remove_filter max_age_seconds current_time first_contacts :
  DictCleaner.keys_to_remove max_age_seconds current_time first_contacts =
  (filter (fun kv => expired max_age_seconds current_time kv = true)
          (map_to_list first_contacts)).*1.
Proof. unfold DictCleaner.keys_to_remove. by rewrite keys_to_remove_acc. Qed.

Lemma elem_of_keys_to_remove max_age_seconds current_time first_contacts key :
  key ∈ DictCleaner.keys_to_remove max_age_seconds current_time first_contacts <->
  exists timestamp, first_contacts !! key = Some timestamp /\
                    (max_age_seconds < current_time - timestamp)%Q.
Proof.
  rewrite keys_to_remove_filter, list_elem_of_fmap. split.
  - intros ([k ts] & -> & Hin). apply list_elem_of_filter in Hin as [Hexp Hin].
    apply elem_of_map_to_list in Hin. exists ts. split; [done|].
    by apply Qgtb_lt.
  - intros (ts & Hlook & Hlt). exists (key, ts). split; [done|].
    apply list_elem_of_filter. split; [by apply Qgtb_lt|].
    by apply elem_of_map_to_list.
Qed.

Lemma NoDup_keys_to_remove max_age_seconds current_time first_contacts :
  NoDup (DictCleaner.keys_to_remove max_age_seconds current_time first_contacts).
Proof.
  rewrite keys_to_remove_filter.
  apply (sublist_NoDup _ (map_to_list first_contacts).*1).
  - apply NoDup_fst_map_to_list.
  - apply fmap_sublist, sublist_filter.
Qed.

Lemma remove_keys_ok keys first_contacts :
  NoDup keys ->
  (forall key, key ∈ keys -> is_Some (first_contacts !! key)) ->
  exists first_contacts',
    DictCleaner.remove_keys keys first_contacts = (Ok tt, first_contacts') /\
    forall key, first_contacts' !! key =
                if decide (key ∈ keys) then None else first_contacts !! key.
Proof.
  revert first_contacts.
  induction keys as [|k keys IH]; intros fc Hnd Hin.
  - exists fc. split; [reflexivity|]. intros key.
    rewrite decide_False; [done | apply not_elem_of_nil].
  - apply NoDup_cons in Hnd as [Hk Hnd].
    destruct (Hin k) as [ts Hts]; [left|].
    destruct (IH (delete k fc) Hnd) as (fc' & Hrun & Hlook).
    { intros key Hkey. rewrite lookup_delete_ne by (intros ->; done).
      apply Hin. by right. }
    exists fc'. split.
    + cbn [DictCleaner.remove_keys]. unfold mbind, M_bind, DictCleaner.del.
      by rewrite Hts.
    + intros key. rewrite Hlook.
      destruct (decide (key = k)) as [->|Hne].
      * rewrite (decide_True (P := k ∈ k :: keys)) by left.
        rewrite lookup_delete_eq. by destruct (decide (k ∈ keys)).
      * rewrite lookup_delete_ne by done.
        destruct (decide (key ∈ keys)) as [Hi|Hi].
        -- rewrite decide_True; [done | by right].
        -- rewrite decide_False; [done|]. rewrite elem_of_cons. tauto.
Qed.

(** ** Counting flows in a window *)

Lemma fan_out_map_to_list current_time window source first_contacts :
  fan_out current_time window source first_contacts =
  fan_out_list current_time window source (map_to_list first_contacts).
Proof.
  unfold fan_out, fan_out_list. f_equal.
  rewrite map_filter_alt. apply map_size_list_to_map.
  apply (sublist_NoDup _ (map_to_list first_contacts).*1).
  - apply NoDup_fst_map_to_list.
  - apply fmap_sublist, sublist_filter.
Qed.

Lemma fan_out_list_snoc current_time window source l kv :
  fan_out_list current_time window source (l ++ [kv]) =
  fan_out_list current_time window source l +
  (if decide (in_window current_time window source kv) then 1 else 0).
Proof.
  unfold fan_out_list. rewrite filter_app, length_app, filter_cons, filter_nil.
  destruct (decide (in_window current_time window source kv)); simpl; lia.
Qed.

Lemma fan_out_list_nonneg current_time window source l :
  0 <= fan_out_list current_time window source l.
Proof. unfold fan_out_list. lia. Qed.

Lemma in_window_mono current_time w1 w2 source kv :
  (w1 <= w2)%Q ->
  in_window current_time w1 source kv -> in_window current_time w2 source kv.
Proof. intros Hw [Hs Hlt]. split; [done|]. eapply Qlt_le_trans; eauto. Qed.

Lemma fan_out_list_mono current_time w1 w2 source l :
  (w1 <= w2)%Q ->
  fan_out_list current_time w1 source l <= fan_out_list current_time w2 source l.
Proof.
  intros Hw. induction l as [|kv l IH] using rev_ind; [done|].
  rewrite !fan_out_list_snoc.
  destruct (decide (in_window current_time w1 source kv)) as [H1|H1];
    destruct (decide (in_window current_time w2 source kv)) as [H2|H2]; try lia.
  destruct H2. by eapply in_window_mono.
Qed.

(** ** The scan under the lock *)

Lemma count_key_other current_time source timestamp (sc : rates) source' :
  source' <> source ->
  count_key current_time source timestamp sc !! source' = sc !! source'.
Proof.
  intros Hne. unfold count_key. cbn [length ages seq foldl].
  repeat match goal with
  | |- context [if ?b then _ else _] => destruct b
  end; rewrite ?lookup_insert_ne by done; reflexivity.
Qed.

Lemma count_key_same current_time source timestamp (sc : rates) c1 c60 c300 :
  let age := (current_time - timestamp)%Q in
  let hit (w : Q) (c : Z) := if decide (age < w)%Q then c + 1 else c in
  get sc source [0; 0; 0] = [c1; c60; c300] ->
  count_key current_time source timestamp sc !! source =
  if decide (age < 1 \/ age < 60 \/ age < 300)%Q
  then Some [hit 1%Q c1; hit 60%Q c60; hit 300%Q c300]
  else sc !! source.
Proof.
  intros age hit Hget. unfold count_key. cbn [length ages seq foldl nth].
  fold age. subst hit. cbv beta.
  destruct (Qltb age 1) eqn:E1; destruct (Qltb age 60) eqn:E60;
    destruct (Qltb age 300) eqn:E300.
  all: repeat match goal with
       | H : Qltb _ _ = true |- _ => apply Qltb_lt in H
       | H : Qltb _ _ = false |- _ =>
           apply not_true_iff_false in H; rewrite Qltb_lt in H
       end.
  all: repeat case_decide; try tauto; try reflexivity.
  all: unfold get in *; rewrite ?lookup_insert_eq; cbn [default].
  all: rewrite Hget; reflexivity.
Qed.

Lemma scan_list_snoc current_time l kv :
  scan_list current_time (l ++ [kv]) =
  count_key current_time kv.1.1.1 kv.2 (scan_list current_time l).
Proof. unfold scan_list. by rewrite foldl_snoc. Qed.

Lemma scan_list_spec current_time l source :
  scan_list current_time l !! source =
  stored (fan_out_list current_time 1 source l)
         (fan_out_list current_time 60 source l)
         (fan_out_list current_time 300 source l).
Proof.
  induction l as [|[key timestamp] l IH] using rev_ind; [reflexivity|].
  rewrite scan_list_snoc. cbn [fst snd].
  set (sc := scan_list current_time l) in *.
  rewrite !fan_out_list_snoc.
  pose proof (fan_out_list_mono current_time 1 60 source l ltac:(done)) as M1.
  pose proof (fan_out_list_mono current_time 60 300 source l ltac:(done)) as M2.
  pose proof (fan_out_list_nonneg current_time 1 source l) as N1.
  set (c1 := fan_out_list current_time 1 source l) in *.
  set (c60 := fan_out_list current_time 60 source l) in *.
  set (c300 := fan_out_list current_time 300 source l) in *.
  destruct (decide (source = key.1.1)) as [->|Hne].
  - assert (get sc key.1.1 [0; 0; 0] = [c1; c60; c300]) as Hget.
    { unfold get. rewrite IH. unfold stored.
      destruct (Z.eqb_spec c300 0); cbn [default]; [|done].
      repeat f_equal; lia. }
    rewrite (count_key_same _ _ _ _ _ _ _ Hget).
    unfold in_window. cbn [fst snd].
    assert (1 <= 60)%Q as L1 by done. assert (60 <= 300)%Q as L2 by done.
    assert (1 <= 300)%Q as L3 by done.
    pose proof (fun H => Qlt_le_trans (current_time - timestamp) _ _ H L1).
    pose proof (fun H => Qlt_le_trans (current_time - timestamp) _ _ H L2).
    pose proof (fun H => Qlt_le_trans (current_time - timestamp) _ _ H L3).
    unfold stored.
    repeat case_decide; try tauto; rewrite ?Z.add_0_r.
    all: try (rewrite IH; reflexivity).
    all: destruct (Z.eqb_spec (c300 + 1) 0); [lia | reflexivity].
  - rewrite count_key_other by done. rewrite IH.
    unfold in_window. cbn [fst snd].
    repeat (case_decide as Hw; [destruct Hw as [Hw _]; congruence | clear Hw]).
    by rewrite !Z.add_0_r.
Qed.

Lemma scan_spec current_time first_contacts source :
  scan current_time first_contacts !! source =
  stored (fan_out current_time 1 source first_contacts)
         (fan_out current_time 60 source first_contacts)
         (fan_out current_time 300 source first_contacts).
Proof. rewrite !fan_out_map_to_list. apply scan_list_spec. Qed.

(** ** The threshold loop *)

Lemma compare_thresholds_seq counts listed (s n : nat) :
  match compare_thresholds (seq s n) counts listed with
  | Some i => (s <= i < s + n)%nat /\ reportable counts listed i /\
              forall k, (s <= k < i)%nat -> ~ reportable counts listed k
  | None => forall k, (s <= k < s + n)%nat -> ~ reportable counts listed k
  end.
Proof.
  revert s. induction n as [|n IH]; intros s; cbn [seq compare_thresholds].
  - intros k Hk. lia.
  - specialize (IH (S s)).
    assert (forall k, (s <= k)%nat -> k <> s -> (S s <= k)%nat) as Hstep by lia.
    destruct (Z.gtb_spec (nth s counts 0) (nth s max_connections 0)) as [Hgt|Hle].
    + destruct (bool_decide_reflect (s ∈ listed)) as [Hin|Hin].
      * destruct (compare_thresholds (seq (S s) n) counts listed) as [i|].
        -- destruct IH as (Hi & Hrep & Hmin). split; [lia|]. split; [done|].
           intros k Hk. destruct (decide (k = s)) as [->|Hks].
           ++ intros [_ Hnot]. done.
           ++ apply Hmin. lia.
        -- intros k Hk. destruct (decide (k = s)) as [->|Hks].
           ++ intros [_ Hnot]. done.
           ++ apply IH. lia.
      * split; [lia|]. split; [split; [unfold exceeded; lia | done]|].
        intros k Hk. lia.
    + destruct (compare_thresholds (seq (S s) n) counts listed) as [i|].
      * destruct IH as (Hi & Hrep & Hmin). split; [lia|]. split; [done|].
        intros k Hk. destruct (decide (k = s)) as [->|Hks].
        -- intros [Hex _]. unfold exceeded in Hex. lia.
        -- apply Hmin. lia.
      * intros k Hk. destruct (decide (k = s)) as [->|Hks].
        -- intros [Hex _]. unfold exceeded in Hex. lia.
        -- apply IH. lia.
Qed.

Lemma compare_thresholds_Some counts listed i :
  compare_thresholds (seq 0 (length max_connections)) counts listed = Some i <->
  (i < 3)%nat /\ reportable counts listed i /\
  forall k, (k < i)%nat -> ~ reportable counts listed k.
Proof.
  pose proof (compare_thresholds_seq counts listed 0 (length max_connections)) as H.
  change (length max_connections) with 3%nat in *.
  destruct (compare_thresholds (seq 0 3) counts listed) as [j|].
  - destruct H as (Hj & Hrep & Hmin). split.
    + intros [= <-]. split; [lia|]. split; [done|]. intros k Hk. apply Hmin. lia.
    + intros (Hi & Hrepi & Hmini). f_equal.
      destruct (Nat.lt_trichotomy i j) as [Hlt|[->|Hlt]]; [|done|].
      * destruct (Hmin i); [lia | done].
      * destruct (Hmini j); done.
  - split; [done|]. intros (Hi & Hrep & _). destruct (H i); [lia | done].
Qed.

Lemma compare_thresholds_None counts listed :
  compare_thresholds (seq 0 (length max_connections)) counts listed = None <->
  forall k, (k < 3)%nat -> ~ reportable counts listed k.
Proof.
  pose proof (compare_thresholds_seq counts listed 0 (length max_connections)) as H.
  change (length max_connections) with 3%nat in *.
  destruct (compare_thresholds (seq 0 3) counts listed) as [j|].
  - destruct H as (Hj & Hrep & Hmin). split; [done|].
    intros Hall. destruct (Hall j); [lia | done].
  - split; [|done]. intros _ k Hk. apply H. lia.
Qed.

(** ** One cycle of the analyzer *)

Lemma detect_source blacklist kc a :
  detect blacklist kc = Some a -> alert_source a = kc.1.
Proof.
  unfold detect. destruct (compare_thresholds _ _ _); intros [= <-]. reflexivity.
Qed.

Lemma check_source_detect printed blacklist kc :
  check_source (printed, blacklist) kc =
  (printed ++ option_list (detect blacklist kc),
   match detect blacklist kc with
   | Some a => <[kc.1 := get blacklist kc.1 [] ++ [alert_tier a]]> blacklist
   | None => blacklist
   end).
Proof.
  destruct kc as [key counts]. unfold check_source, detect. cbn [fst snd].
  destruct (compare_thresholds _ _ _); cbn; [reflexivity|].
  by rewrite app_nil_r.
Qed.

Lemma detect_ext blacklist blacklist' kc :
  get blacklist' kc.1 [] = get blacklist kc.1 [] ->
  detect blacklist' kc = detect blacklist kc.
Proof. unfold detect. by intros ->. Qed.

Lemma omap_detect_ext blacklist blacklist' (l : list (string * list Z)) :
  (forall kc, kc ∈ l -> get blacklist' kc.1 [] = get blacklist kc.1 []) ->
  omap (detect blacklist') l = omap (detect blacklist) l.
Proof.
  induction l as [|kc l IH]; intros Hext; [reflexivity|].
  cbn [omap list_omap]. rewrite (detect_ext blacklist blacklist') by (apply Hext; left).
  rewrite IH; [reflexivity|]. intros kc' Hin. apply Hext. by right.
Qed.

Lemma omap_detect_no_source blacklist (l : list (string * list Z)) source :
  source ∉ l.*1 ->
  filter (fun a => alert_source a = source) (omap (detect blacklist) l) = [].
Proof.
  induction l as [|kc l IH]; intros Hnot; [reflexivity|].
  rewrite fmap_cons, not_elem_of_cons in Hnot. destruct Hnot as [Hne Hnot].
  cbn [omap list_omap]. destruct (detect blacklist kc) as [a|] eqn:Hd; [|by apply IH].
  rewrite filter_cons_False; [by apply IH|].
  rewrite (detect_source _ _ _ Hd). congruence.
Qed.

Lemma foldl_check_source (l : list (string * list Z)) printed blacklist :
  NoDup l.*1 ->
  let st := foldl check_source (printed, blacklist) l in
  st.1 = printed ++ omap (detect blacklist) l /\
  forall source,
    get st.2 source [] =
    get blacklist source [] ++
    (alert_tier <$> filter (fun a => alert_source a = source)
                           (omap (detect blacklist) l)).
Proof.
  revert printed blacklist.
  induction l as [|kc l IH]; intros printed blacklist Hnd.
  - cbn. split; [by rewrite app_nil_r|]. intros source. by rewrite app_nil_r.
  - rewrite fmap_cons in Hnd. apply NoDup_cons in Hnd as [Hkc Hnd].
    cbn [foldl]. rewrite check_source_detect.
    set (blacklist1 := match detect blacklist kc with
                       | Some a => _ | None => _ end).
    destruct (IH (printed ++ option_list (detect blacklist kc)) blacklist1 Hnd)
      as [Hprinted Hlisted].
    assert (forall source, source <> kc.1 ->
              get blacklist1 source [] = get blacklist source []) as Hother.
    { intros source Hne. subst blacklist1. unfold get.
      destruct (detect blacklist kc); [|done]. by rewrite lookup_insert_ne. }
    assert (omap (detect blacklist1) l = omap (detect blacklist) l) as Hsame.
    { apply omap_detect_ext. intros kc' Hin. apply Hother.
      intros Heq. apply Hkc. rewrite <- Heq. apply list_elem_of_fmap. eauto. }
    rewrite Hsame in Hprinted, Hlisted. split.
    + rewrite Hprinted, <- app_assoc. f_equal. cbn [omap list_omap].
      by destruct (detect blacklist kc).
    + intros source. rewrite Hlisted. cbn [omap list_omap].
      destruct (decide (source = kc.1)) as [->|Hne].
      * rewrite omap_detect_no_source by done.
        subst blacklist1. destruct (detect blacklist kc) as [a|] eqn:Hd.
        -- rewrite filter_cons_True by (by apply detect_source in Hd).
           rewrite omap_detect_no_source by done.
           unfold get at 1. rewrite lookup_insert_eq. cbn. by rewrite app_nil_r.
        -- by rewrite omap_detect_no_source by done.
      * rewrite Hother by done. destruct (detect blacklist kc) as [a|] eqn:Hd; [|done].
        rewrite filter_cons_False; [done|].
        rewrite (detect_source _ _ _ Hd). congruence.
Qed.

Lemma NoDup_omap_detect blacklist (l : list (string * list Z)) :
  NoDup l.*1 -> NoDup (alert_source <$> omap (detect blacklist) l).
Proof.
  induction l as [|kc l IH]; intros Hnd; [constructor|].
  rewrite fmap_cons in Hnd. apply NoDup_cons in Hnd as [Hkc Hnd].
  cbn [omap list_omap]. destruct (detect blacklist kc) as [a|] eqn:Hd; [|by apply IH].
  rewrite fmap_cons. apply NoDup_cons. split; [|by apply IH].
  rewrite (detect_source _ _ _ Hd).
  intros (a' & Hsrc & Hin)%list_elem_of_fmap.
  apply list_elem_of_omap in Hin as (kc' & Hin & Hd').
  apply Hkc. rewrite Hsrc, (detect_source _ _ _ Hd'). apply list_elem_of_fmap. eauto.
Qed.

(** The alerts of a cycle and the blacklist it leaves. *)
Lemma cycle_printed first_contacts current_time blacklist :
  (cycle first_contacts current_time blacklist).1 =
  omap (detect blacklist) (map_to_list (scan current_time first_contacts)).
Proof.
  unfold cycle.
  destruct (foldl_check_source (map_to_list (scan current_time first_contacts))
              [] blacklist) as [H _]; [apply NoDup_fst_map_to_list|].
  exact H.
Qed.

Lemma cycle_blacklist first_contacts current_time blacklist source :
  get (cycle first_contacts current_time blacklist).2 source [] =
  get blacklist source [] ++
  (alert_tier <$> filter (fun a => alert_source a = source)
                         (cycle first_contacts current_time blacklist).1).
Proof.
  rewrite cycle_printed. unfold cycle.
  destruct (foldl_check_source (map_to_list (scan current_time first_contacts))
              [] blacklist) as [_ H]; [apply NoDup_fst_map_to_list|].
  apply H.
Qed.

Lemma elem_of_cycle first_contacts current_time blacklist a :
  a ∈ (cycle first_contacts current_time blacklist).1 <->
  exists counts i,
    scan current_time first_contacts !! alert_source a = Some counts /\
    compare_thresholds (seq 0 (length max_connections)) counts
      (get blacklist (alert_source a) []) = Some i /\
    a = report (alert_source a) counts i.
Proof.
  rewrite cycle_printed, list_elem_of_omap. split.
  - intros ([key counts] & Hin & Hd). apply elem_of_map_to_list in Hin.
    pose proof (detect_source _ _ _ Hd) as Hsrc. cbn in Hsrc. subst key.
    unfold detect in Hd. cbn [fst snd] in Hd.
    destruct (compare_thresholds _ _ _) as [i|] eqn:Hc; [|done].
    exists counts, i. split; [done|]. split; [done|]. by injection Hd.
  - intros (counts & i & Hscan & Hc & Ha).
    exists (alert_source a, counts). split; [by apply elem_of_map_to_list|].
    unfold detect. cbn [fst snd]. rewrite Hc. cbn. by rewrite <- Ha.
Qed.

Lemma NoDup_cycle_sources first_contacts current_time blacklist :
  NoDup (alert_source <$> (cycle first_contacts current_time blacklist).1).
Proof. rewrite cycle_printed. apply NoDup_omap_detect, NoDup_fst_map_to_list. Qed.

Lemma filter_key_none {A B} `{EqDecision B} (f : A -> B) (l : list A) (x : B) :
  x ∉ f <$> l -> filter (fun b => f b = x) l = [].
Proof.
  induction l as [|b l IH]; intros Hnot; [reflexivity|].
  rewrite fmap_cons, not_elem_of_cons in Hnot. destruct Hnot as [Hne Hnot].
  rewrite filter_cons_False by congruence. by apply IH.
Qed.

Lemma filter_key_unique {A B} `{EqDecision B} (f : A -> B) (l : list A) (a : A) :
  NoDup (f <$> l) -> a ∈ l -> filter (fun b => f b = f a) l = [a].
Proof.
  induction l as [|b l IH]; intros Hnd Hin; [by apply elem_of_nil in Hin|].
  rewrite fmap_cons in Hnd. apply NoDup_cons in Hnd as [Hb Hnd].
  apply elem_of_cons in Hin as [->|Hin].
  - rewrite filter_cons_True by done. by rewrite filter_key_none.
  - rewrite filter_cons_False; [by apply IH|].
    intros Heq. apply Hb. rewrite Heq. apply list_elem_of_fmap. eauto.
Qed.

Lemma cycle_source first_contacts current_time blacklist source :
  filter (fun a => alert_source a = source)
         (cycle first_contacts current_time blacklist).1 =
  match scan current_time first_contacts !! source with
  | Some counts =>
      match compare_thresholds (seq 0 (length max_connections)) counts
                               (get blacklist source []) with
      | Some i => [report source counts i]
      | None => []
      end
  | None => []
  end.
Proof.
  destruct (scan current_time first_contacts !! source) as [counts|] eqn:Hscan.
  1: destruct (compare_thresholds (seq 0 (length max_connections)) counts
                 (get blacklist source [])) as [i|] eqn:Hc.
  - change source with (alert_source (report source counts i)) at 1.
    apply filter_key_unique; [apply NoDup_cycle_sources|].
    apply elem_of_cycle. exists counts, i. done.
  - apply filter_key_none.
    intros (a & -> & (counts' & i & Hs & Hc' & _)%elem_of_cycle)%list_elem_of_fmap.
    congruence.
  - apply filter_key_none.
    intros (a & -> & (counts' & i & Hs & _)%elem_of_cycle)%list_elem_of_fmap.
    congruence.
Qed.

(** ** A run of the analyzer *)

Lemma NoDup_pairs (l : list alert) :
  NoDup (alert_source <$> l) -> NoDup (pair_of <$> l).
Proof.
  induction l as [|a l IH]; intros Hnd; [constructor|].
  rewrite fmap_cons in *. apply NoDup_cons in Hnd as [Ha Hnd].
  apply NoDup_cons. split; [|by apply IH].
  intros (a' & Heq & Hin)%list_elem_of_fmap. apply Ha.
  apply list_elem_of_fmap. exists a'. split; [|done].
  unfold pair_of in Heq. congruence.
Qed.

Lemma run_from_fresh (trace : list (contacts * Q)) blacklist :
  let printed := concat (run_from blacklist trace) in
  NoDup (pair_of <$> printed) /\
  forall a, a ∈ printed -> alert_tier a ∉ get blacklist (alert_source a) [].
Proof.
  revert blacklist.
  induction trace as [|[first_contacts current_time] trace IH]; intros blacklist.
  - cbn. split; [constructor|]. intros a Ha. by apply elem_of_nil in Ha.
  - cbn [run_from].
    destruct (cycle first_contacts current_time blacklist) as [printed blacklist']
      eqn:Hcycle.
    pose proof (cycle_blacklist first_contacts current_time blacklist) as Hbl.
    pose proof (NoDup_cycle_sources first_contacts current_time blacklist) as Hnd.
    pose proof (elem_of_cycle first_contacts current_time blacklist) as Hel.
    rewrite Hcycle in Hbl, Hnd, Hel. cbn [fst snd] in Hbl, Hnd, Hel.
    destruct (IH blacklist') as [IHnd IHfresh].
    cbn [concat].
    assert (forall a, a ∈ printed ->
              alert_tier a ∉ get blacklist (alert_source a) []) as Hfresh.
    { intros a (counts & i & _ & Hc & Ha)%Hel.
      apply compare_thresholds_Some in Hc as (_ & [_ Hnot] & _).
      rewrite Ha. exact Hnot. }
    split.
    + rewrite fmap_app. apply NoDup_app. split; [by apply NoDup_pairs|].
      split; [|done].
      intros p (a & -> & Ha)%list_elem_of_fmap (a' & Heq & Ha')%list_elem_of_fmap.
      apply (IHfresh a' Ha'). unfold pair_of in Heq.
      injection Heq as Hsrc Htier. rewrite <- Hsrc, <- Htier, Hbl.
      apply elem_of_app. right. apply list_elem_of_fmap. exists a. split; [done|].
      by apply list_elem_of_filter.
    + intros a [Ha|Ha]%elem_of_app; [by apply Hfresh|].
      intros Hin. apply (IHfresh a Ha). rewrite Hbl. apply elem_of_app. by left.
Qed.

(** * Main results *)

(** ** The capture worker *)

Lemma run_app (earlier later : list recv_event) first_contacts :
  Sniffer.run (earlier ++ later) first_contacts =
  match Sniffer.run earlier first_contacts with
  | (Ok _, first_contacts') => Sniffer.run later first_contacts'
  | (Raise e, first_contacts') => (Raise e, first_contacts')
  end.
Proof.
  revert first_contacts.
  induction earlier as [|[|ethernet_data now] earlier IH]; intros first_contacts.
  - reflexivity.
  - apply IH.
  - cbn [app Sniffer.run]. unfold mbind, M_bind.
    destruct (handle_frame ethernet_data now first_contacts) as [[[]|e] fc1];
      [apply IH | reflexivity].
Qed.

(** C6. A frame built from field values dissects back to those values: the
    Ethernet dissector returns both MAC addresses as formatted text, the
    ethertype with its two bytes exchanged and the IPv4 packet; the IPv4
    dissector returns the protocol number, both addresses as formatted text
    and the transport segment; the TCP and UDP dissectors return both ports.
    The MAC text has 12 characters and reads back, as pairs of upper-case
    hexadecimal digits without separators, to the MAC bytes; the address text
    reads back, as dotted decimal, to the address bytes; and ethertype 0x0800
    comes out as 8. *)
Theorem dissect_roundtrip (f : frame_fields) :
  well_formed f ->
  (14 + 20 + 4 <= length (build_frame f))%nat /\
  ethernet_dissect (build_frame f) =
    Ok (mac_format (f_dest_mac f), mac_format (f_src_mac f),
        byte_swap16 (f_ethertype f), build_packet f) /\
  ipv4_dissect (build_packet f) =
    Ok (f_ip_protocol f, ipv4_format (f_source_ip f),
        ipv4_format (f_target_ip f), build_segment f) /\
  tcp_dissect (build_segment f) = Ok (f_source_port f, f_dest_port f) /\
  udp_dissect (build_segment f) = Ok (f_source_port f, f_dest_port f) /\
  (forall mac, mac ∈ [f_dest_mac f; f_src_mac f] ->
     String.length (mac_format mac) = 12%nat /\
     parse_mac (mac_format mac) = Some mac) /\
  (forall address, address ∈ [f_source_ip f; f_target_ip f] ->
     parse_ipv4 (ipv4_format address) = Some address) /\
  (f_ethertype f = 2048 -> byte_swap16 (f_ethertype f) = 8).
Proof.
  intros (Hdm & Hsm & Het & Hhead & Hproto & Hsum & Hsrc & Hdst & Hsp & Hdp).
  split; [|split; [|split; [|split; [|split; [|split; [|split]]]]]].
  - unfold build_frame, build_packet, build_segment, be16.
    rewrite !length_app, Hdm, Hsm, Hhead, Hsum, Hsrc, Hdst. cbn [length]. lia.
  - by apply ethernet_dissect_build.
  - by apply ipv4_dissect_build.
  - by apply tcp_dissect_build.
  - rewrite udp_dissect_tcp. by apply tcp_dissect_build.
  - intros mac Hmac. split; [|apply parse_mac_format].
    rewrite length_mac_format.
    apply elem_of_cons in Hmac as [->|Hmac]; [lia|].
    apply list_elem_of_singleton in Hmac as ->. lia.
  - intros address Haddr. apply parse_ipv4_format. intros ->.
    apply elem_of_cons in Haddr as [Heq|Haddr].
    + by rewrite <- Heq in Hsrc.
    + apply list_elem_of_singleton in Haddr. by rewrite <- Haddr in Hdst.
  - intros ->. reflexivity.
Qed.

Lemma dissect_roundtrip_witness :
  ethernet_dissect Examples.tcp_frame =
    Ok ("001A2B3C4D5E"%string, "FFEEDDCCBBAA"%string, 8,
        build_packet Examples.tcp_fields) /\
  ipv4_dissect (build_packet Examples.tcp_fields) =
    Ok (6, "10.0.0.5"%string, "192.168.1.10"%string,
        build_segment Examples.tcp_fields) /\
  tcp_dissect (build_segment Examples.tcp_fields) = Ok (1234, 80).
Proof.
  assert (well_formed Examples.tcp_fields) as Hwf.
  { unfold well_formed. cbn. repeat split; lia. }
  destruct (dissect_roundtrip Examples.tcp_fields Hwf)
    as (_ & Heth & Hip & Htcp & _).
  split; [exact Heth | split; [exact Hip | exact Htcp]].
Defined.

(** C1 (as amended). A frame shorter than the 14-byte Ethernet header makes
    [ethernet_dissect] raise [struct.error]; the capture loop catches only
    the receive timeout, so the exception leaves [run]: the dictionary is as
    it was before the frame, and the frames that follow are not processed. *)
Theorem short_frame_escapes_run (earlier later : list recv_event)
    ethernet_data now first_contacts first_contacts' :
  (length ethernet_data < 14)%nat ->
  Sniffer.run earlier first_contacts = (Ok tt, first_contacts') ->
  ethernet_dissect ethernet_data = Raise StructError /\
  Sniffer.run (earlier ++ RecvFrame ethernet_data now :: later) first_contacts =
    (Raise StructError, first_contacts').
Proof.
  intros Hshort Hearlier. split; [by apply ethernet_dissect_short|].
  rewrite run_app, Hearlier. cbn [Sniffer.run]. unfold mbind, M_bind.
  by rewrite handle_frame_short.
Qed.

Lemma short_frame_escapes_run_witness :
  Sniffer.run ([RecvTimeout] ++
               RecvFrame Examples.short_frame 1 :: [RecvFrame Examples.tcp_frame 2])
              ∅ = (Raise StructError, ∅).
Proof.
  apply (short_frame_escapes_run [RecvTimeout] [RecvFrame Examples.tcp_frame 2]
           Examples.short_frame 1%Q ∅ ∅).
  - vm_compute. lia.
  - reflexivity.
Defined.

(** C1 (as stated) fails: a 10-byte frame is not skipped.  The loop ends with
    [struct.error] and the frame behind it, which on its own is recorded, is
    never looked at. *)
Lemma short_frame_not_discarded :
  length Examples.short_frame = 10%nat /\
  Sniffer.run [RecvFrame Examples.short_frame 1; RecvFrame Examples.tcp_frame 2] ∅
    = (Raise StructError, ∅) /\
  (Sniffer.run [RecvFrame Examples.tcp_frame 2] ∅).1 = Ok tt /\
  map_to_list (Sniffer.run [RecvFrame Examples.tcp_frame 2] ∅).2
    = [(Examples.flow 80, 2%Q)].
Proof. vm_compute. repeat split; reflexivity. Qed.

(** C9. Processing one frame changes at most one entry of the dictionary.
    Whatever the frame, the dictionary afterwards is either the one before or
    the one before with the frame's flow key set to the current time.  A
    frame whose ethertype is not IPv4, and an IPv4 frame whose protocol is
    neither TCP (6) nor UDP (17), ICMP (1) included, leave it as it was.  A
    tracked frame sets its key and no other; a second frame of the same flow
    only replaces the time stored under that key, and the dictionary keeps
    its size. *)
Theorem frame_touches_one_entry ethernet_data now first_contacts :
  ((exists r, handle_frame ethernet_data now first_contacts = (r, first_contacts)) \/
   (exists key, tracked ethernet_data key /\
      handle_frame ethernet_data now first_contacts =
        (Ok tt, <[key := now]> first_contacts))) /\
  (forall dest_mac src_mac protocol ip_data,
     ethernet_dissect ethernet_data = Ok (dest_mac, src_mac, protocol, ip_data) ->
     protocol <> 8 ->
     handle_frame ethernet_data now first_contacts = (Ok tt, first_contacts)) /\
  (forall dest_mac src_mac ip_data ip_protocol src_ip dest_ip transport_data,
     ethernet_dissect ethernet_data = Ok (dest_mac, src_mac, 8, ip_data) ->
     ipv4_dissect ip_data = Ok (ip_protocol, src_ip, dest_ip, transport_data) ->
     ip_protocol <> 6 -> ip_protocol <> 17 ->
     handle_frame ethernet_data now first_contacts = (Ok tt, first_contacts)) /\
  (forall key,
     tracked ethernet_data key ->
     handle_frame ethernet_data now first_contacts =
       (Ok tt, <[key := now]> first_contacts) /\
     (forall key', key' <> key ->
        (<[key := now]> first_contacts : contacts) !! key' = first_contacts !! key') /\
     forall ethernet_data' now',
       tracked ethernet_data' key ->
       Sniffer.run [RecvFrame ethernet_data now; RecvFrame ethernet_data' now']
                   first_contacts =
         (Ok tt, <[key := now']> first_contacts) /\
       size (<[key := now']> first_contacts : contacts) =
         size (<[key := now]> first_contacts : contacts)).
Proof.
  split; [|split; [|split]].
  - destruct (handle_frame_cases ethernet_data now first_contacts)
      as [(r & Hr & _)|Htracked]; [left; eauto | by right].
  - intros dest_mac src_mac protocol ip_data Heth Hproto.
    unfold handle_frame, mbind, M_bind, lift. rewrite Heth.
    by destruct (Z.eqb_spec protocol 8).
  - intros dest_mac src_mac ip_data ip_protocol src_ip dest_ip transport_data
      Heth Hip H6 H17.
    unfold handle_frame, mbind, M_bind, lift, mret, M_ret.
    rewrite Heth. cbn. rewrite Hip.
    destruct (Z.eqb_spec ip_protocol 6); [done|].
    by destruct (Z.eqb_spec ip_protocol 17).
  - intros key Htracked. split; [by apply handle_frame_tracked|].
    split; [intros key' Hne; by apply lookup_insert_ne|].
    intros ethernet_data' now' Htracked'. split.
    + cbn [Sniffer.run]. unfold mbind at 1, M_bind at 1.
      rewrite (handle_frame_tracked _ _ _ _ Htracked).
      unfold mbind, M_bind.
      rewrite (handle_frame_tracked _ _ _ _ Htracked'). cbn.
      by rewrite insert_insert_eq.
    + rewrite !map_size_insert. reflexivity.
Qed.

Lemma frame_touches_one_entry_witness :
  handle_frame Examples.arp_frame 1 ∅ = (Ok tt, ∅) /\
  handle_frame Examples.icmp_frame 1 ∅ = (Ok tt, ∅) /\
  handle_frame Examples.tcp_frame 1 ∅ = (Ok tt, <[Examples.flow 80 := 1%Q]> ∅) /\
  Sniffer.run [RecvFrame Examples.tcp_frame 1; RecvFrame Examples.tcp_frame 2] ∅ =
    (Ok tt, <[Examples.flow 80 := 2%Q]> ∅).
Proof.
  assert (tracked Examples.tcp_frame (Examples.flow 80)) as Htracked.
  { eexists _, _, _, _, _, _. split; [vm_compute; reflexivity|].
    split; [vm_compute; reflexivity|]. left. split; vm_compute; reflexivity. }
  split; [|split; [|split]].
  - destruct (frame_touches_one_entry Examples.arp_frame 1%Q ∅) as (_ & H & _).
    eapply H; [vm_compute; reflexivity | lia].
  - destruct (frame_touches_one_entry Examples.icmp_frame 1%Q ∅) as (_ & _ & H & _).
    eapply H; [vm_compute; reflexivity | vm_compute; reflexivity | lia | lia].
  - destruct (frame_touches_one_entry Examples.tcp_frame 1%Q ∅) as (_ & _ & _ & H).
    apply (H _ Htracked).
  - destruct (frame_touches_one_entry Examples.tcp_frame 1%Q ∅) as (_ & _ & _ & H).
    destruct (H _ Htracked) as (_ & _ & Hrun).
    apply (Hrun Examples.tcp_frame 2%Q Htracked).
Defined.

(** ** The expiry worker *)

(** C5. One iteration of the expiry worker, with the single reference time
    [current_time], ends without an exception; its deletion list, computed
    on the dictionary as found, holds exactly the keys whose age
    [current_time - timestamp] is strictly above [max_age_seconds]; those
    keys and no others are gone afterwards, and every key that remains keeps
    its timestamp.  With the default of 300 seconds a key aged 400 seconds is
    removed and a key aged at most 300 seconds is kept. *)
Theorem expiry_iteration_exact max_age_seconds current_time first_contacts :
  exists first_contacts',
    DictCleaner.iteration max_age_seconds current_time first_contacts =
      (Ok tt, first_contacts') /\
    (forall key,
       key ∈ DictCleaner.keys_to_remove max_age_seconds current_time first_contacts <->
       exists timestamp, first_contacts !! key = Some timestamp /\
                         (max_age_seconds < current_time - timestamp)%Q) /\
    (forall key,
       first_contacts' !! key = None <->
       first_contacts !! key = None \/
       key ∈ DictCleaner.keys_to_remove max_age_seconds current_time first_contacts) /\
    (forall key timestamp,
       first_contacts' !! key = Some timestamp <->
       first_contacts !! key = Some timestamp /\
       ~ (max_age_seconds < current_time - timestamp)%Q) /\
    (max_age_seconds = DictCleaner.default_max_age_seconds ->
     forall key timestamp,
       first_contacts !! key = Some timestamp ->
       ((current_time - timestamp == 400)%Q -> first_contacts' !! key = None) /\
       ((current_time - timestamp <= 300)%Q ->
        first_contacts' !! key = Some timestamp)).
Proof.
  destruct (remove_keys_ok
              (DictCleaner.keys_to_remove max_age_seconds current_time first_contacts)
              first_contacts) as (first_contacts' & Hrun & Hlook).
  { apply NoDup_keys_to_remove. }
  { intros key (timestamp & Hts & _)%elem_of_keys_to_remove. eauto. }
  assert (forall key timestamp,
            first_contacts' !! key = Some timestamp <->
            first_contacts !! key = Some timestamp /\
            ~ (max_age_seconds < current_time - timestamp)%Q) as Hkept.
  { intros key timestamp. rewrite Hlook. case_decide as Hin; split.
    - done.
    - intros [Hts Hnot]. destruct Hnot.
      apply elem_of_keys_to_remove in Hin as (ts' & Hts' & Hlt). congruence.
    - intros Hts. split; [done|]. intros Hlt. apply Hin.
      apply elem_of_keys_to_remove. eauto.
    - by intros [Hts _]. }
  exists first_contacts'. split; [exact Hrun|].
  split; [apply elem_of_keys_to_remove|]. split; [|split; [exact Hkept|]].
  - intros key. rewrite Hlook. case_decide as Hin; [tauto|]. tauto.
  - intros -> key timestamp Hts. unfold DictCleaner.default_max_age_seconds. split.
    + intros Hage. rewrite Hlook, decide_True; [done|].
      apply elem_of_keys_to_remove. exists timestamp. split; [done|].
      rewrite Hage. reflexivity.
    + intros Hage. apply Hkept. split; [done|]. by apply Qle_not_lt.
Qed.

Lemma expiry_iteration_exact_witness :
  exists first_contacts',
    DictCleaner.iteration 300 1000 Examples.old_and_new = (Ok tt, first_contacts') /\
    first_contacts' !! Examples.flow 9 = None /\
    first_contacts' !! Examples.flow 10 = Some 900%Q.
Proof.
  destruct (expiry_iteration_exact 300 1000 Examples.old_and_new)
    as (first_contacts' & Hrun & _ & _ & _ & Hdefault).
  exists first_contacts'. split; [exact Hrun|].
  specialize (Hdefault eq_refl). split.
  - apply (Hdefault (Examples.flow 9) 600%Q); [vm_compute; reflexivity|].
    vm_compute. reflexivity.
  - apply (Hdefault (Examples.flow 10) 900%Q); [vm_compute; reflexivity|].
    vm_compute. discriminate.
Defined.

(** ** The rate analyzer *)

Lemma scan_Some current_time first_contacts source counts :
  scan current_time first_contacts !! source = Some counts ->
  counts = [fan_out current_time 1 source first_contacts;
            fan_out current_time 60 source first_contacts;
            fan_out current_time 300 source first_contacts].
Proof.
  rewrite scan_spec. unfold stored.
  destruct (_ =? 0); [done|]. by intros [= <-].
Qed.

Lemma fan_out_mono current_time w1 w2 source first_contacts :
  (w1 <= w2)%Q ->
  fan_out current_time w1 source first_contacts <=
  fan_out current_time w2 source first_contacts.
Proof. intros Hw. rewrite !fan_out_map_to_list. by apply fan_out_list_mono. Qed.

(** C2 (as amended). The vector the scan stores for a source is ordered
    [count_1s, count_1m, count_5m]: index 0 holds the number of the source's
    flows younger than 1 second, index 1 the number younger than 60 seconds
    and index 2 the number younger than 300 seconds; a source is stored
    exactly when it has a flow younger than 300 seconds. *)
Theorem scan_vector_order current_time first_contacts source counts :
  scan current_time first_contacts !! source = Some counts ->
  length counts = 3%nat /\
  counts !! 0%nat = Some (fan_out current_time 1 source first_contacts) /\
  counts !! 1%nat = Some (fan_out current_time 60 source first_contacts) /\
  counts !! 2%nat = Some (fan_out current_time 300 source first_contacts) /\
  0 < fan_out current_time 300 source first_contacts.
Proof.
  intros Hscan. pose proof (scan_Some _ _ _ _ Hscan) as ->.
  repeat (split; [reflexivity|]).
  rewrite scan_spec in Hscan. unfold stored in Hscan.
  destruct (Z.eqb_spec (fan_out current_time 300 source first_contacts) 0);
    [done|].
  unfold fan_out in *. lia.
Qed.

Lemma scan_vector_order_witness :
  [0; 1; 1] !! 0%nat = Some (fan_out 1000 1 Examples.scanner Examples.one_flow) /\
  [0; 1; 1] !! 2%nat = Some (fan_out 1000 300 Examples.scanner Examples.one_flow).
Proof.
  destruct (scan_vector_order 1000 Examples.one_flow Examples.scanner [0; 1; 1])
    as (_ & H0 & _ & H2 & _); [vm_compute; reflexivity|].
  split; [exact H0 | exact H2].
Defined.

(** C2 (as stated) fails: with a single flow aged 30 seconds the stored
    vector is [0; 1; 1], so index 0 is 0 while the 5-minute count is 1, and
    index 2 is 1 while the 1-second count is 0. *)
Lemma scan_vector_not_5m_first :
  scan 1000 Examples.one_flow !! Examples.scanner = Some [0; 1; 1] /\
  fan_out 1000 300 Examples.scanner Examples.one_flow = 1 /\
  fan_out 1000 1 Examples.scanner Examples.one_flow = 0 /\
  [0; 1; 1] <>
  [fan_out 1000 300 Examples.scanner Examples.one_flow;
   fan_out 1000 60 Examples.scanner Examples.one_flow;
   fan_out 1000 1 Examples.scanner Examples.one_flow].
Proof. vm_compute. repeat split; try reflexivity. discriminate. Qed.

(** C7. In the vector stored for a source the three window counts, all taken
    against the one reference time, are ordered: 1-second count <= 1-minute
    count <= 5-minute count, because a flow younger than a narrower window is
    younger than every wider one. *)
Theorem window_counts_monotonic current_time first_contacts source counts :
  scan current_time first_contacts !! source = Some counts ->
  exists count_1s count_1m count_5m,
    counts = [count_1s; count_1m; count_5m] /\
    count_1s = fan_out current_time 1 source first_contacts /\
    count_1m = fan_out current_time 60 source first_contacts /\
    count_5m = fan_out current_time 300 source first_contacts /\
    count_1s <= count_1m <= count_5m /\
    (forall kv, in_window current_time 1 source kv ->
                in_window current_time 60 source kv) /\
    (forall kv, in_window current_time 60 source kv ->
                in_window current_time 300 source kv).
Proof.
  intros Hscan. pose proof (scan_Some _ _ _ _ Hscan) as ->.
  eexists _, _, _. split; [reflexivity|]. repeat (split; [reflexivity|]).
  split; [split; by apply fan_out_mono|].
  split; intros kv; by apply in_window_mono.
Qed.

Lemma window_counts_monotonic_witness :
  exists count_1s count_1m count_5m,
    [6; 7; 8] = [count_1s; count_1m; count_5m] /\
    count_1s <= count_1m <= count_5m.
Proof.
  destruct (window_counts_monotonic Examples.snapshot_time Examples.mixed_flows
              Examples.scanner [6; 7; 8])
    as (c1 & c60 & c300 & Heq & _ & _ & _ & Hle & _); [vm_compute; reflexivity|].
  exists c1, c60, c300. split; [exact Heq | exact Hle].
Defined.

(** What an alert reports, in terms of the stored vector. *)
Lemma alert_rates first_contacts current_time blacklist a :
  a ∈ (cycle first_contacts current_time blacklist).1 ->
  exists counts,
    scan current_time first_contacts !! alert_source a = Some counts /\
    fanout_per_1s a = (inject_Z (nth 2 counts 0%Z) / 300)%Q /\
    fanout_per_1m a = (inject_Z (nth 1 counts 0%Z) / 5)%Q /\
    fanout_per_5m a = nth 0 counts 0.
Proof.
  intros (counts & i & Hscan & _ & Ha)%elem_of_cycle.
  exists counts. split; [done|]. rewrite Ha. done.
Qed.

(** C3 (the code departs from it).  With six flows aged 0.5 s, one aged
    30.5 s and one aged 120.5 s the stored vector is [6; 7; 8] and the
    5-minute count is 8.  The alert reports 8/300 per second, but 7/5 per
    minute (the 1-minute count over 5, not 8/5) and 6 as the 5-minute
    figure (the 1-second count, not 8). *)
Theorem alert_rates_mixed_windows :
  scan Examples.snapshot_time Examples.mixed_flows !! Examples.scanner
    = Some [6; 7; 8] /\
  fan_out Examples.snapshot_time 300 Examples.scanner Examples.mixed_flows = 8 /\
  (cycle Examples.mixed_flows Examples.snapshot_time ∅).1 =
    [ {| alert_source := Examples.scanner;
         alert_tier := 0;
         reason_age := 1;
         reason_count := 6;
         reason_max := 5;
         fanout_per_1s := 8 # 300;
         fanout_per_1m := 7 # 5;
         fanout_per_5m := 6 |} ] /\
  ~ (7 # 5 == inject_Z 8 / 5)%Q /\
  6 <> 8.
Proof. vm_compute. repeat split; try reflexivity; discriminate. Qed.

(** C10. The comparison with the threshold is strict: a source whose count at
    tier [i] equals [max_connections[i]] gets no alert at tier [i] in that
    cycle, and every alert of a cycle is for a tier whose count is strictly
    above its threshold. *)
Theorem threshold_comparison_strict first_contacts current_time blacklist
    source counts (i : nat) :
  scan current_time first_contacts !! source = Some counts ->
  nth i counts 0 = nth i max_connections 0 ->
  (forall a, a ∈ (cycle first_contacts current_time blacklist).1 ->
             ~ (alert_source a = source /\ alert_tier a = i)) /\
  (forall a, a ∈ (cycle first_contacts current_time blacklist).1 ->
             reason_count a > reason_max a /\
             exists counts',
               scan current_time first_contacts !! alert_source a = Some counts' /\
               reason_count a = nth (alert_tier a) counts' 0 /\
               reason_max a = nth (alert_tier a) max_connections 0).
Proof.
  intros Hscan Heq. split.
  - intros a (counts' & j & Hscan' & Hc & Ha)%elem_of_cycle [Hsrc Htier].
    rewrite Hsrc in Hscan'. rewrite Hscan in Hscan'. injection Hscan' as <-.
    apply compare_thresholds_Some in Hc as (_ & [Hex _] & _).
    rewrite Ha in Htier. cbn in Htier. subst j.
    unfold exceeded in Hex. lia.
  - intros a (counts' & j & Hscan' & Hc & Ha)%elem_of_cycle.
    apply compare_thresholds_Some in Hc as (_ & [Hex _] & _).
    rewrite Ha. cbn. split; [exact Hex|]. exists counts'. done.
Qed.

Lemma threshold_comparison_strict_witness :
  Forall (fun a => ~ (alert_source a = Examples.scanner /\ alert_tier a = 0%nat))
         (cycle Examples.five_flows Examples.snapshot_time ∅).1.
Proof.
  apply Forall_forall.
  apply (threshold_comparison_strict Examples.five_flows Examples.snapshot_time
           ∅ Examples.scanner [5; 5; 5] 0%nat).
  - vm_compute. reflexivity.
  - reflexivity.
Defined.




Lemma fan_out_all_young current_time window source first_contacts (n : nat) :
  size (filter (fun kv : flow_key * Q => kv.1.1.1 = source) first_contacts) = n ->
  (forall key timestamp,
     first_contacts !! key = Some timestamp -> key.1.1 = source ->
     (current_time - timestamp < window)%Q) ->
  fan_out current_time window source first_contacts = Z.of_nat n.
Proof.
  intros Hsize Hyoung. unfold fan_out. f_equal. rewrite <- Hsize. f_equal.
  apply map_filter_ext. intros key timestamp Hlook. unfold in_window. cbn.
  split; [tauto|]. intros Hsrc. split; [done|]. by apply (Hyoung key).
Qed.





(** * Further properties *)

Import CaptureSpec.

(** ** Dissectors on buffers of any length *)

(** Replace a buffer known to hold at least [n] bytes by [n] named bytes
    followed by the rest. *)
Tactic Notation "explode" ident(d) integer(n) hyp(H) :=
  do n (destruct d as [|? d]; [simpl in H; lia|]);
  cbn [length] in H.

Lemma byte_eqb_val a c : Byte.eqb a c = (byte_val a =? byte_val c).
Proof.
  destruct (Z.eqb_spec (byte_val a) (byte_val c)) as [Heq|Hne].
  - apply Byte.byte_dec_lb. unfold byte_val in Heq.
    apply N2Z.inj in Heq. apply (f_equal Byte.of_N) in Heq.
    rewrite !Byte.of_to_N in Heq. congruence.
  - destruct (Byte.eqb a c) eqn:E; [|reflexivity].
    apply Byte.byte_dec_bl in E. congruence.
Qed.

Lemma be_int_range_2 a b : 0 <= be_int [a; b] < 65536.
Proof.
  rewrite be_int_2. pose proof (byte_val_range a). pose proof (byte_val_range b).
  lia.
Qed.

Lemma ethertype_test a b :
  (htons (be_int [a; b]) =? 8) = Byte.eqb a x08 && Byte.eqb b x00.
Proof.
  rewrite htons_swap by apply be_int_range_2.
  rewrite be_int_2, !byte_eqb_val. unfold byte_swap16.
  pose proof (byte_val_range a) as Ha. pose proof (byte_val_range b) as Hb.
  replace ((byte_val a * 256 + byte_val b) mod 256) with (byte_val b)
    by (rewrite Z.add_comm, Z.mod_add by lia; symmetry; apply Z.mod_small; lia).
  replace ((byte_val a * 256 + byte_val b) / 256) with (byte_val a)
    by (rewrite Z.add_comm, Z.div_add by lia; rewrite Z.div_small by lia; lia).
  change (byte_val x08) with 8. change (byte_val x00) with 0.
  destruct (Z.eqb_spec (byte_val a) 8), (Z.eqb_spec (byte_val b) 0);
    cbn; apply Z.eqb_eq || apply Z.eqb_neq; lia.
Qed.

Lemma protocol_test a (c : byte) : (be_int [a] =? byte_val c) = Byte.eqb a c.
Proof. by rewrite be_int_1, byte_eqb_val. Qed.

Lemma ethernet_dissect_long (d : bytes) :
  (14 <= length d)%nat ->
  ethernet_dissect d =
    Ok (mac_format (take 6 d), mac_format (take 6 (drop 6 d)),
        htons (be_int (take 2 (drop 12 d))), drop 14 d).
Proof.
  intros H. explode d 14 H.
  unfold ethernet_dissect, struct_unpack.
  cbn -[be_int htons mac_format]. rewrite ?take_0, ?drop_0.
  cbn -[be_int htons mac_format]. reflexivity.
Qed.

Lemma ipv4_dissect_long (ip_data : bytes) :
  (20 <= length ip_data)%nat ->
  ipv4_dissect ip_data =
    Ok (be_int (take 1 (drop 9 ip_data)),
        ipv4_format (take 4 (drop 12 ip_data)),
        ipv4_format (take 4 (drop 16 ip_data)), drop 20 ip_data).
Proof.
  intros H. explode ip_data 20 H.
  unfold ipv4_dissect, struct_unpack.
  cbn -[be_int ipv4_format]. rewrite ?take_0, ?drop_0.
  cbn -[be_int ipv4_format]. reflexivity.
Qed.

Lemma ipv4_dissect_short (ip_data : bytes) :
  (length ip_data < 20)%nat -> ipv4_dissect ip_data = Raise StructError.
Proof.
  intros H. unfold ipv4_dissect. by rewrite (struct_unpack_short _ 20) by done.
Qed.

Lemma tcp_dissect_long (transport_data : bytes) :
  (4 <= length transport_data)%nat ->
  tcp_dissect transport_data =
    Ok (be_int (take 2 transport_data), be_int (take 2 (drop 2 transport_data))).
Proof.
  intros H. explode transport_data 4 H.
  unfold tcp_dissect, struct_unpack.
  cbn -[be_int]. rewrite ?take_0, ?drop_0. cbn -[be_int]. reflexivity.
Qed.

Lemma tcp_dissect_short (transport_data : bytes) :
  (length transport_data < 4)%nat -> tcp_dissect transport_data = Raise StructError.
Proof.
  intros H. unfold tcp_dissect. by rewrite (struct_unpack_short _ 4) by done.
Qed.

Lemma icmp_dissect_long (transport_data : bytes) :
  (2 <= length transport_data)%nat ->
  icmp_dissect transport_data =
    Ok (be_int (take 1 transport_data), be_int (take 1 (drop 1 transport_data))).
Proof.
  intros H. explode transport_data 2 H.
  unfold icmp_dissect, struct_unpack.
  cbn -[be_int]. rewrite ?take_0, ?drop_0. cbn -[be_int]. reflexivity.
Qed.

Lemma icmp_dissect_short (transport_data : bytes) :
  (length transport_data < 2)%nat -> icmp_dissect transport_data = Raise StructError.
Proof.
  intros H. unfold icmp_dissect. by rewrite (struct_unpack_short _ 2) by done.
Qed.

Lemma protocol_test_tcp a : (be_int [a] =? 6) = Byte.eqb a x06.
Proof. apply (protocol_test a x06). Qed.

Lemma protocol_test_udp a : (be_int [a] =? 17) = Byte.eqb a x11.
Proof. apply (protocol_test a x11). Qed.

(** ** The loop body, byte by byte *)

Ltac decide_lengths :=
  repeat match goal with
  | |- context [(?a <? ?b)%nat] => destruct (Nat.ltb_spec a b); try lia
  | |- context [(?a <=? ?b)%nat] => destruct (Nat.leb_spec a b); try lia
  end.

Lemma handle_frame_spec (d : bytes) now first_contacts :
  handle_frame d now first_contacts =
  if truncated d then (Raise StructError, first_contacts)
  else (Ok tt, match frame_key d with
               | Some key => <[key := now]> first_contacts
               | None => first_contacts
               end).
Proof.
  destruct (Nat.lt_ge_cases (length d) 14) as [Hshort|Hlong].
  { rewrite handle_frame_short by done. unfold truncated.
    by rewrite (proj2 (Nat.ltb_lt _ _) Hshort). }
  unfold handle_frame, mbind, M_bind, lift, mret, M_ret, upsert.
  rewrite ethernet_dissect_long by done.
  explode d 14 Hlong.
  unfold truncated, frame_key, is_ipv4, is_tcp_or_udp, byte_at.
  cbn -[Byte.eqb be_int ipv4_format mac_format htons Nat.ltb Nat.leb].
  rewrite ?take_0, ?drop_0, ethertype_test.
  destruct (Byte.eqb _ x08 && Byte.eqb _ x00).
  2: { decide_lengths; reflexivity. }
  destruct (Nat.lt_ge_cases (length d) 20) as [Hip|Hip].
  { rewrite ipv4_dissect_short by done. decide_lengths; reflexivity. }
  rewrite ipv4_dissect_long by done.
  explode d 20 Hip.
  cbn -[Byte.eqb be_int ipv4_format mac_format htons Nat.ltb Nat.leb].
  rewrite ?take_0, ?drop_0, protocol_test_tcp, protocol_test_udp.
  change udp_dissect with tcp_dissect.
  destruct (Nat.lt_ge_cases (length d) 4) as [Htr|Htr].
  { rewrite tcp_dissect_short by done.
    destruct (Byte.eqb _ x06); [decide_lengths; reflexivity|].
    destruct (Byte.eqb _ x11); decide_lengths; reflexivity. }
  rewrite tcp_dissect_long by done.
  explode d 4 Htr.
  cbn -[Byte.eqb be_int ipv4_format mac_format htons Nat.ltb Nat.leb].
  rewrite ?take_0, ?drop_0.
  destruct (Byte.eqb _ x06); [decide_lengths; reflexivity|].
  destruct (Byte.eqb _ x11); decide_lengths; reflexivity.
Qed.

(** ** The capture loop as a sequence of assignments *)

Lemma upserts_snoc kvs kv first_contacts :
  upserts (kvs ++ [kv]) first_contacts = <[kv.1 := kv.2]> (upserts kvs first_contacts).
Proof. unfold upserts. by rewrite foldl_snoc. Qed.

Lemma upserts_cons kv kvs first_contacts :
  upserts (kv :: kvs) first_contacts = upserts kvs (<[kv.1 := kv.2]> first_contacts).
Proof. reflexivity. Qed.

Lemma upserts_lookup kvs first_contacts key :
  upserts kvs first_contacts !! key =
  match last (filter (fun kv => kv.1 = key) kvs) with
  | Some kv => Some kv.2
  | None => first_contacts !! key
  end.
Proof.
  induction kvs as [|[key' ts] kvs IH] using rev_ind; [reflexivity|].
  rewrite upserts_snoc, filter_app, filter_cons, filter_nil. cbn [fst snd].
  destruct (decide (key' = key)) as [->|Hne].
  - by rewrite lookup_insert_eq, last_snoc.
  - by rewrite lookup_insert_ne, app_nil_r.
Qed.

Lemma run_spec (trace : list recv_event) first_contacts :
  Sniffer.run trace first_contacts =
  (if forallb (fun ev => negb (event_raises ev)) trace
   then Ok tt else Raise StructError,
   upserts (omap captured (before_raise trace)) first_contacts).
Proof.
  revert first_contacts.
  induction trace as [|[|d now] trace IH]; intros first_contacts.
  - reflexivity.
  - apply IH.
  - cbn [Sniffer.run forallb before_raise event_raises].
    unfold mbind, M_bind. rewrite handle_frame_spec.
    destruct (truncated d); [reflexivity|].
    rewrite IH. cbn [negb andb omap list_omap captured].
    destruct (frame_key d); reflexivity.
Qed.

Lemma mac_format_inj (m1 m2 : bytes) : mac_format m1 = mac_format m2 -> m1 = m2.
Proof.
  intros H. apply (f_equal parse_mac) in H.
  rewrite !parse_mac_format in H. by injection H.
Qed.

Lemma ipv4_format_inj (a1 a2 : bytes) : ipv4_format a1 = ipv4_format a2 -> a1 = a2.
Proof.
  intros H. apply (f_equal parse_ipv4) in H.
  destruct a1 as [|b1 a1], a2 as [|b2 a2]; [done| | |].
  - rewrite (parse_ipv4_format (b2 :: a2)) in H by done. discriminate.
  - rewrite (parse_ipv4_format (b1 :: a1)) in H by done. discriminate.
  - rewrite !parse_ipv4_format in H by done. congruence.
Qed.

Lemma byte_val_inj (a b : byte) : byte_val a = byte_val b -> a = b.
Proof.
  intros H. apply Byte.byte_dec_bl. rewrite byte_eqb_val. by apply Z.eqb_eq.
Qed.

Lemma be_int_inj_2 (a b c d : byte) : be_int [a; b] = be_int [c; d] -> a = c /\ b = d.
Proof.
  rewrite !be_int_2. intros H.
  pose proof (byte_val_range a). pose proof (byte_val_range b).
  pose proof (byte_val_range c). pose proof (byte_val_range d).
  split; apply byte_val_inj; lia.
Qed.

Lemma frame_key_Some (d : bytes) key :
  frame_key d = Some key ->
  (38 <= length d)%nat /\ is_ipv4 d = true /\ is_tcp_or_udp d = true /\
  key = (ipv4_format (take 4 (drop 26 d)), ipv4_format (take 4 (drop 30 d)),
         be_int (take 2 (drop 36 d))).
Proof.
  unfold frame_key.
  destruct (Nat.leb_spec 38 (length d)); [|done].
  destruct (is_ipv4 d); [|done]. destruct (is_tcp_or_udp d); [|done].
  cbn. intros [= <-]. done.
Qed.

(** ** The dissectors and the capture worker *)

(** X1. [icmp_dissect] returns the values of the first two bytes of its
    argument, each between 0 and 255, whatever follows them, and raises
    [struct.error] when there are fewer than two bytes. *)
Theorem icmp_dissect_first_two_bytes (transport_data : bytes) :
  icmp_dissect transport_data =
    match transport_data with
    | icmp_type :: icmp_code :: _ => Ok (byte_val icmp_type, byte_val icmp_code)
    | _ => Raise StructError
    end /\
  forall icmp_type icmp_code,
    icmp_dissect transport_data = Ok (icmp_type, icmp_code) ->
    0 <= icmp_type < 256 /\ 0 <= icmp_code < 256.
Proof.
  assert (icmp_dissect transport_data =
          match transport_data with
          | icmp_type :: icmp_code :: _ => Ok (byte_val icmp_type, byte_val icmp_code)
          | _ => Raise StructError
          end) as Heq.
  { destruct transport_data as [|a [|b rest]].
    - apply icmp_dissect_short. cbn. lia.
    - apply icmp_dissect_short. cbn. lia.
    - rewrite icmp_dissect_long by (cbn; lia).
      cbn [take drop]. rewrite take_0. by rewrite !be_int_1. }
  split; [exact Heq|]. rewrite Heq.
  intros icmp_type icmp_code H.
  destruct transport_data as [|a [|b rest]]; try discriminate.
  injection H as <- <-. split; apply byte_val_range.
Qed.

Lemma icmp_dissect_first_two_bytes_witness :
  icmp_dissect (drop 34 Examples.icmp_frame) = Ok (8, 0) /\
  0 <= 8 < 256 /\ 0 <= 0 < 256.
Proof.
  destruct (icmp_dissect_first_two_bytes (drop 34 Examples.icmp_frame)) as [_ H].
  split; [|apply (H 8 0)]; vm_compute; reflexivity.
Defined.

(** X2. [ipv4_dissect] raises [struct.error] on fewer than 20 bytes and
    otherwise reads fixed offsets: the protocol is byte 9, the addresses are
    bytes 12-15 and 16-19, the payload is everything from byte 20 on.  The
    first byte (version and header length) is not consulted.  The protocol
    lies between 0 and 255 and each address text reads back, as dotted
    decimal, to its four bytes. *)
Theorem ipv4_dissect_fixed_offsets (ip_data : bytes) :
  ((length ip_data < 20)%nat -> ipv4_dissect ip_data = Raise StructError) /\
  ((20 <= length ip_data)%nat ->
   exists ip_protocol,
     ip_data !! 9%nat = Some ip_protocol /\
     ipv4_dissect ip_data =
       Ok (byte_val ip_protocol,
           ipv4_format (take 4 (drop 12 ip_data)),
           ipv4_format (take 4 (drop 16 ip_data)),
           drop 20 ip_data) /\
     0 <= byte_val ip_protocol < 256 /\
     parse_ipv4 (ipv4_format (take 4 (drop 12 ip_data))) =
       Some (take 4 (drop 12 ip_data)) /\
     parse_ipv4 (ipv4_format (take 4 (drop 16 ip_data))) =
       Some (take 4 (drop 16 ip_data)) /\
     forall first_byte,
       ipv4_dissect (first_byte :: drop 1 ip_data) = ipv4_dissect ip_data).
Proof.
  split; [apply ipv4_dissect_short|]. intros Hlen.
  rewrite ipv4_dissect_long by done.
  explode ip_data 20 Hlen. eexists. split; [reflexivity|].
  cbn [take drop]. rewrite !take_0, drop_0.
  split; [by rewrite be_int_1|]. split; [apply byte_val_range|].
  split; [by apply parse_ipv4_format|]. split; [by apply parse_ipv4_format|].
  intros first_byte. rewrite ipv4_dissect_long by (cbn; lia).
  cbn [take drop]. by rewrite !take_0, drop_0.
Qed.

Lemma ipv4_dissect_fixed_offsets_witness :
  ipv4_dissect (take 19 (build_packet Examples.tcp_fields)) = Raise StructError /\
  exists ip_protocol,
    build_packet Examples.tcp_fields !! 9%nat = Some ip_protocol /\
    0 <= byte_val ip_protocol < 256.
Proof.
  split.
  - destruct (ipv4_dissect_fixed_offsets (take 19 (build_packet Examples.tcp_fields)))
      as [H _].
    apply H. vm_compute. lia.
  - destruct (ipv4_dissect_fixed_offsets (build_packet Examples.tcp_fields))
      as [_ H].
    destruct H as (p & Hp & _ & Hr & _); [vm_compute; lia|].
    exists p. split; [exact Hp | exact Hr].
Defined.

(** X3. [tcp_dissect] and [udp_dissect] behave alike: on fewer than four
    bytes they raise [struct.error]; otherwise the source port is the
    big-endian value of bytes 0-1 and the destination port that of bytes 2-3,
    both between 0 and 65535, and the bytes after the fourth are ignored. *)
Theorem port_dissectors_big_endian (transport_data : bytes) :
  udp_dissect transport_data = tcp_dissect transport_data /\
  tcp_dissect transport_data =
    match transport_data with
    | s1 :: s0 :: d1 :: d0 :: _ =>
        Ok (byte_val s1 * 256 + byte_val s0, byte_val d1 * 256 + byte_val d0)
    | _ => Raise StructError
    end /\
  forall source_port dest_port,
    tcp_dissect transport_data = Ok (source_port, dest_port) ->
    0 <= source_port < 65536 /\ 0 <= dest_port < 65536.
Proof.
  assert (tcp_dissect transport_data =
          match transport_data with
          | s1 :: s0 :: d1 :: d0 :: _ =>
              Ok (byte_val s1 * 256 + byte_val s0, byte_val d1 * 256 + byte_val d0)
          | _ => Raise StructError
          end) as Heq.
  { destruct transport_data as [|a [|b [|c [|e rest]]]];
      try (apply tcp_dissect_short; cbn; lia).
    rewrite tcp_dissect_long by (cbn; lia).
    cbn [take drop]. rewrite take_0. by rewrite !be_int_2. }
  split; [reflexivity|]. split; [exact Heq|]. rewrite Heq.
  intros source_port dest_port H.
  destruct transport_data as [|a [|b [|c [|e rest]]]]; try discriminate.
  injection H as <- <-. rewrite <- !be_int_2. split; apply be_int_range_2.
Qed.

Lemma port_dissectors_big_endian_witness :
  tcp_dissect (build_segment Examples.tcp_fields) = Ok (1234, 80) /\
  0 <= 1234 < 65536 /\ 0 <= 80 < 65536.
Proof.
  destruct (port_dissectors_big_endian (build_segment Examples.tcp_fields))
    as (_ & _ & H).
  split; [|apply (H 1234 80)]; vm_compute; reflexivity.
Defined.

Lemma frame_key_well_formed (d : bytes) key :
  frame_key d = Some key ->
  0 <= key.2 < 65536 /\
  parse_ipv4 key.1.1 = Some (take 4 (drop 26 d)) /\
  parse_ipv4 key.1.2 = Some (take 4 (drop 30 d)).
Proof.
  intros (Hlen & _ & _ & ->)%frame_key_Some. cbn [fst snd].
  explode d 38 Hlen. cbn [take drop]. rewrite !take_0.
  split; [apply be_int_range_2|]. split; by apply parse_ipv4_format.
Qed.

Lemma truncated_short (d : bytes) : truncated d = true -> (length d < 38)%nat.
Proof.
  unfold truncated. intros H.
  repeat (apply orb_true_iff in H as [H|H] || apply andb_true_iff in H as [_ H]);
    apply Nat.ltb_lt in H; lia.
Qed.

(** X4. What the loop body records is read at fixed offsets of the frame.  A
    frame is recorded exactly when it has at least 38 bytes, bytes 12-13 are
    08 00 and byte 23 is 6 or 17; its key is then the dotted-decimal text of
    bytes 26-29, that of bytes 30-33 and the big-endian value of bytes 36-37
    (the IPv4 header is taken to be 20 bytes long whatever its length field
    says).  The port of a recorded key lies between 0 and 65535 and both
    address texts read back to the four bytes they were made from. *)
Theorem recorded_key_by_offsets (d : bytes) now first_contacts :
  (handle_frame d now first_contacts).2 =
    match frame_key d with
    | Some key => <[key := now]> first_contacts
    | None => first_contacts
    end /\
  (forall key, tracked d key <-> frame_key d = Some key) /\
  (forall key, frame_key d = Some key ->
     0 <= key.2 < 65536 /\
     parse_ipv4 key.1.1 = Some (take 4 (drop 26 d)) /\
     parse_ipv4 key.1.2 = Some (take 4 (drop 30 d))).
Proof.
  pose proof (handle_frame_spec d now first_contacts) as Hspec.
  split; [|split; [|apply frame_key_well_formed]].
  - rewrite Hspec. destruct (truncated d) eqn:Htr; [|reflexivity].
    cbn [snd]. apply truncated_short in Htr. unfold frame_key.
    destruct (Nat.leb_spec 38 (length d)); [lia | reflexivity].
  - intros key. split.
    + intros Htracked.
      pose proof (handle_frame_tracked d key 0%Q ∅ Htracked) as Hrun.
      rewrite handle_frame_spec in Hrun.
      destruct (truncated d); [discriminate|].
      destruct (frame_key d) as [key'|] eqn:Hkey.
      * f_equal. apply (f_equal snd) in Hrun. cbn [snd] in Hrun.
        apply (f_equal (fun m : contacts => m !! key)) in Hrun.
        rewrite lookup_insert_eq in Hrun.
        destruct (decide (key' = key)) as [|Hne]; [done|].
        by rewrite lookup_insert_ne in Hrun.
      * apply (f_equal snd) in Hrun. cbn [snd] in Hrun.
        apply (f_equal (fun m : contacts => m !! key)) in Hrun.
        by rewrite lookup_insert_eq in Hrun.
    + intros Hkey.
      destruct (handle_frame_cases d 0%Q ∅) as [(r & Hr & _)|(key' & Htr & Hr)].
      * rewrite handle_frame_spec, Hkey in Hr.
        destruct (truncated d) eqn:Htrunc.
        -- apply truncated_short in Htrunc.
           apply frame_key_Some in Hkey as [? _]. lia.
        -- apply (f_equal snd) in Hr. cbn [snd] in Hr.
           apply (f_equal (fun m : contacts => m !! key)) in Hr.
           by rewrite lookup_insert_eq in Hr.
      * rewrite handle_frame_spec, Hkey in Hr.
        destruct (truncated d); [discriminate|].
        apply (f_equal snd) in Hr. cbn [snd] in Hr.
        apply (f_equal (fun m : contacts => m !! key)) in Hr.
        rewrite lookup_insert_eq in Hr.
        destruct (decide (key' = key)) as [<-|Hne]; [done|].
        by rewrite lookup_insert_ne in Hr.
Qed.

Lemma recorded_key_by_offsets_witness :
  0 <= (Examples.flow 80).2 < 65536 /\
  parse_ipv4 (Examples.flow 80).1.1 = Some (take 4 (drop 26 Examples.tcp_frame)).
Proof.
  destruct (recorded_key_by_offsets Examples.tcp_frame 1%Q ∅) as (_ & _ & H).
  destruct (H (Examples.flow 80)) as (Hport & Hsrc & _); [vm_compute; reflexivity|].
  split; [exact Hport | exact Hsrc].
Defined.

(** X5. The loop body raises exactly when the frame is cut short at a header
    it reads: fewer than 14 bytes; or an IPv4 frame (bytes 12-13 = 08 00)
    with fewer than 34 bytes; or an IPv4 frame carrying TCP or UDP (byte 23 =
    6 or 17) with fewer than 38 bytes.  The exception is always
    [struct.error] and the dictionary is left as it was.  A frame of at least
    38 bytes never raises, and neither does a non-IPv4 frame of at least 14
    bytes. *)
Theorem capture_raises_iff_truncated (d : bytes) now first_contacts :
  (handle_frame d now first_contacts).1 =
    (if truncated d then Raise StructError else Ok tt) /\
  (truncated d = true -> (handle_frame d now first_contacts).2 = first_contacts) /\
  ((38 <= length d)%nat -> (handle_frame d now first_contacts).1 = Ok tt) /\
  ((14 <= length d)%nat -> is_ipv4 d = false ->
     handle_frame d now first_contacts = (Ok tt, first_contacts)).
Proof.
  rewrite handle_frame_spec.
  split; [by destruct (truncated d)|]. split; [by intros ->|]. split.
  - intros Hlen. destruct (truncated d) eqn:Htr; [|reflexivity].
    apply truncated_short in Htr. lia.
  - intros Hlen Hip. unfold truncated, frame_key. rewrite Hip.
    destruct (Nat.ltb_spec (length d) 14); [lia|].
    by rewrite andb_false_r.
Qed.

Lemma capture_raises_iff_truncated_witness :
  (handle_frame (take 30 Examples.tcp_frame) 1 ∅).2 = ∅ /\
  (handle_frame Examples.tcp_frame 1 ∅).1 = Ok tt /\
  handle_frame Examples.arp_frame 1 ∅ = (Ok tt, ∅).
Proof.
  split; [|split].
  - destruct (capture_raises_iff_truncated (take 30 Examples.tcp_frame) 1%Q ∅)
      as (_ & H & _).
    apply H. vm_compute. reflexivity.
  - destruct (capture_raises_iff_truncated Examples.tcp_frame 1%Q ∅)
      as (_ & _ & H & _).
    apply H. vm_compute. lia.
  - destruct (capture_raises_iff_truncated Examples.arp_frame 1%Q ∅)
      as (_ & _ & _ & H).
    apply H; [vm_compute; lia | vm_compute; reflexivity].
Defined.

Lemma before_raise_sublist (trace : list recv_event) :
  before_raise trace `sublist_of` trace.
Proof.
  induction trace as [|ev trace IH]; [constructor|].
  cbn [before_raise]. destruct (event_raises ev).
  - apply sublist_nil_l.
  - by apply sublist_skip.
Qed.

Lemma captured_provenance (trace : list recv_event) key timestamp :
  (key, timestamp) ∈ omap captured trace ->
  exists d, RecvFrame d timestamp ∈ trace /\ frame_key d = Some key.
Proof.
  intros (ev & Hin & Hcap)%list_elem_of_omap.
  destruct ev as [|d now]; [discriminate|]. cbn in Hcap.
  destruct (frame_key d) as [key'|] eqn:Hkey; [|discriminate].
  injection Hcap as <- <-. eauto.
Qed.

Lemma omap_length_le {A B} (f : A -> option B) (l : list A) :
  (length (omap f l) <= length l)%nat.
Proof.
  induction l as [|x l IH]; [done|].
  cbn [omap list_omap length]. destruct (f x); cbn [length]; lia.
Qed.

Lemma last_filter_elem {A} (P : A -> Prop) `{!forall x, Decision (P x)}
    (l : list A) (x : A) :
  last (filter P l) = Some x -> x ∈ l /\ P x.
Proof.
  intros Hlast. apply last_Some_elem_of in Hlast.
  by apply list_elem_of_filter in Hlast as [? ?].
Qed.

(** X6. The capture loop handles the events in order up to the first frame
    that raises and skips receive timeouts.  It ends normally exactly when no
    frame raises; otherwise it ends with [struct.error].  In the dictionary
    it leaves, a key recorded by one of the handled frames maps to the time
    of the last such frame, and any other key is as before. *)
Theorem capture_loop_last_packet_wins (trace : list recv_event) first_contacts :
  Sniffer.run trace first_contacts =
    (if forallb (fun ev => negb (event_raises ev)) trace
     then Ok tt else Raise StructError,
     upserts (omap captured (before_raise trace)) first_contacts) /\
  (forall key,
     (Sniffer.run trace first_contacts).2 !! key =
     match last (filter (fun kv => kv.1 = key)
                        (omap captured (before_raise trace))) with
     | Some kv => Some kv.2
     | None => first_contacts !! key
     end) /\
  Sniffer.run (filter (fun ev => is_frame ev = true) trace) first_contacts =
    Sniffer.run trace first_contacts.
Proof.
  split; [apply run_spec|]. split.
  - intros key. rewrite run_spec. cbn [snd]. apply upserts_lookup.
  - revert first_contacts.
    induction trace as [|[|d now] trace IH]; intros first_contacts.
    + reflexivity.
    + rewrite filter_cons_False by done. apply IH.
    + rewrite filter_cons_True by done. cbn [Sniffer.run].
      unfold mbind, M_bind.
      destruct (handle_frame d now first_contacts) as [[[]|e] fc1];
        [apply IH | reflexivity].
Qed.

(** X7. The capture loop only adds to the dictionary.  Whether it ends
    normally or with an exception, every key present before is still
    present, the dictionary grows by at most one key per event, and a key
    maps either to the time it had before or to the time of a frame of the
    trace that records that key.  So when no stored time is later than a
    clock reading of the trace, no key's time ever decreases. *)
Theorem capture_only_adds (trace : list recv_event) first_contacts :
  let first_contacts' := (Sniffer.run trace first_contacts).2 in
  (forall key, is_Some (first_contacts !! key) -> is_Some (first_contacts' !! key)) /\
  (forall key timestamp,
     first_contacts' !! key = Some timestamp ->
     first_contacts !! key = Some timestamp \/
     exists d, RecvFrame d timestamp ∈ trace /\ frame_key d = Some key) /\
  (size first_contacts <= size first_contacts' <= size first_contacts + length trace)%nat /\
  ((forall key timestamp d now,
      first_contacts !! key = Some timestamp -> RecvFrame d now ∈ trace ->
      (timestamp <= now)%Q) ->
   forall key timestamp timestamp',
     first_contacts !! key = Some timestamp ->
     first_contacts' !! key = Some timestamp' ->
     (timestamp <= timestamp')%Q).
Proof.
  intros first_contacts'.
  assert (forall key timestamp,
            first_contacts' !! key = Some timestamp ->
            first_contacts !! key = Some timestamp \/
            exists d, RecvFrame d timestamp ∈ trace /\ frame_key d = Some key)
    as Hfrom.
  { intros key timestamp. subst first_contacts'.
    rewrite run_spec. cbn [snd]. rewrite upserts_lookup.
    destruct (last _) as [[key' ts]|] eqn:Hlast; [|by left].
    intros [= <-]. right.
    apply last_filter_elem in Hlast as [Hin Hkey]. cbn in Hkey. subst key'.
    apply captured_provenance in Hin as (d & Hin & Hkey).
    exists d. split; [|done].
    eapply elem_of_sublist; [done | apply before_raise_sublist]. }
  split; [|split; [exact Hfrom|split]].
  - intros key [timestamp Hts]. subst first_contacts'.
    rewrite run_spec. cbn [snd]. rewrite upserts_lookup.
    destruct (last _); eauto.
  - subst first_contacts'. rewrite run_spec. cbn [snd].
    assert (length (omap captured (before_raise trace)) <= length trace)%nat as Hlen.
    { etrans; [apply omap_length_le|].
      apply sublist_length, before_raise_sublist. }
    revert Hlen. generalize (omap captured (before_raise trace)) as kvs.
    generalize (length trace) as n. intros n kvs. revert n.
    induction kvs as [|kv kvs IH] using rev_ind; intros n Hlen.
    + cbn. lia.
    + rewrite length_app in Hlen. cbn in Hlen.
      rewrite upserts_snoc. specialize (IH (n - 1)%nat ltac:(lia)).
      destruct (upserts kvs first_contacts !! kv.1) as [ts|] eqn:Hl.
      * rewrite map_size_insert_Some by eauto. lia.
      * rewrite map_size_insert_None by done. lia.
  - intros Hclock key timestamp timestamp' Hts Hts'.
    destruct (Hfrom key timestamp' Hts') as [Hsame|(d & Hin & _)].
    + rewrite Hts in Hsame. injection Hsame as <-. apply Qle_refl.
    + by eapply Hclock.
Qed.


Lemma capture_only_adds_witness :
  (Sniffer.run [RecvFrame Examples.tcp_frame 2; RecvFrame Examples.short_frame 3]
               {[Examples.flow 80 := 1%Q]}).2 !! Examples.flow 80 = Some 2%Q /\
  (1 <= 2)%Q.
Proof.
  destruct (capture_only_adds
              [RecvFrame Examples.tcp_frame 2; RecvFrame Examples.short_frame 3]
              {[Examples.flow 80 := 1%Q]}) as (_ & _ & _ & H).
  split; [vm_compute; reflexivity|].
  apply (H) with (key := Examples.flow 80).
  - intros key timestamp d now Hlook Hin.
    apply lookup_singleton_Some in Hlook as [_ <-].
    apply elem_of_cons in Hin as [Heq|Hin]; [injection Heq as _ ->; done|].
    apply list_elem_of_singleton in Hin. injection Hin as _ ->. done.
  - apply lookup_singleton_eq.
  - vm_compute. reflexivity.
Defined.

(** X8. Both address formats are injective on byte strings of any length, the
    empty one included, so two different addresses never get the same text;
    the MAC text has two characters per byte and reads back to the bytes, and
    the text of a non-empty address reads back, as dotted decimal, to the
    bytes. *)
Theorem address_formats_injective (a1 a2 : bytes) :
  (mac_format a1 = mac_format a2 -> a1 = a2) /\
  (ipv4_format a1 = ipv4_format a2 -> a1 = a2) /\
  String.length (mac_format a1) = (2 * length a1)%nat /\
  parse_mac (mac_format a1) = Some a1 /\
  (a1 <> [] -> parse_ipv4 (ipv4_format a1) = Some a1) /\
  ipv4_format [] = EmptyString.
Proof.
  split; [apply mac_format_inj|]. split; [apply ipv4_format_inj|].
  split; [apply length_mac_format|]. split; [apply parse_mac_format|].
  split; [apply parse_ipv4_format | reflexivity].
Qed.

Lemma address_formats_injective_witness :
  parse_ipv4 (ipv4_format [x0a; x00; x00; x05]) = Some [x0a; x00; x00; x05].
Proof.
  destruct (address_formats_injective [x0a; x00; x00; x05] []) as (_ & _ & _ & _ & H & _).
  apply H. discriminate.
Defined.

(** X9. Two recorded frames get the same key only if they agree on the bytes
    the key is made of: source address bytes 26-29, destination address
    bytes 30-33 and destination port bytes 36-37.  Flows that differ in any
    of them are never merged into one entry of the dictionary. *)
Theorem flows_do_not_collide (d1 d2 : bytes) key :
  frame_key d1 = Some key -> frame_key d2 = Some key ->
  take 4 (drop 26 d1) = take 4 (drop 26 d2) /\
  take 4 (drop 30 d1) = take 4 (drop 30 d2) /\
  take 2 (drop 36 d1) = take 2 (drop 36 d2).
Proof.
  intros (Hlen1 & _ & _ & ->)%frame_key_Some (Hlen2 & _ & _ & Heq)%frame_key_Some.
  injection Heq as Hsrc Hdst Hport.
  apply ipv4_format_inj in Hsrc, Hdst.
  split; [done|]. split; [done|].
  explode d1 38 Hlen1. explode d2 38 Hlen2.
  cbn [take drop] in *. rewrite !take_0 in *.
  apply be_int_inj_2 in Hport as [-> ->]. reflexivity.
Qed.

Lemma flows_do_not_collide_witness :
  take 2 (drop 36 Examples.tcp_frame) = take 2 (drop 36 (Examples.tcp_frame ++ [x00])).
Proof.
  destruct (flows_do_not_collide Examples.tcp_frame (Examples.tcp_frame ++ [x00])
              (Examples.flow 80)) as (_ & _ & H).
  - vm_compute. reflexivity.
  - vm_compute. reflexivity.
  - exact H.
Defined.

(** ** The expiry worker as a filter *)

Import ExpirySpec.

Lemma iteration_filter max_age_seconds current_time first_contacts :
  DictCleaner.iteration max_age_seconds current_time first_contacts =
  (Ok tt, filter (fresh max_age_seconds current_time) first_contacts).
Proof.
  destruct (remove_keys_ok
              (DictCleaner.keys_to_remove max_age_seconds current_time first_contacts)
              first_contacts) as (first_contacts' & Hrun & Hlook).
  { apply NoDup_keys_to_remove. }
  { intros key (timestamp & Hts & _)%elem_of_keys_to_remove. eauto. }
  unfold DictCleaner.iteration. rewrite Hrun. f_equal.
  apply map_eq. intros key. rewrite Hlook. apply option_eq. intros timestamp.
  rewrite map_lookup_filter_Some. unfold fresh. cbn [snd].
  case_decide as Hin.
  - apply elem_of_keys_to_remove in Hin as (ts' & Hts' & Hlt).
    split; [done|]. intros [Hts Hnot]. destruct Hnot. congruence.
  - split; [|by intros [? _]]. intros Hts. split; [done|].
    intros Hlt. apply Hin. apply elem_of_keys_to_remove. eauto.
Qed.

Lemma remove_keys_size keys first_contacts :
  NoDup keys ->
  (forall key, key ∈ keys -> is_Some (first_contacts !! key)) ->
  (size (DictCleaner.remove_keys keys first_contacts).2 + length keys
   = size first_contacts)%nat.
Proof.
  revert first_contacts.
  induction keys as [|k keys IH]; intros fc Hnd Hin; [cbn; lia|].
  apply NoDup_cons in Hnd as [Hk Hnd].
  destruct (Hin k) as [ts Hts]; [left|].
  cbn [DictCleaner.remove_keys]. unfold mbind, M_bind, DictCleaner.del.
  rewrite Hts. cbn [length].
  assert (size fc <> 0%nat) as Hpos.
  { intros Hz. apply map_size_empty_iff in Hz. subst fc.
    by rewrite lookup_empty in Hts. }
  assert (forall key, key ∈ keys -> is_Some (delete k fc !! key)) as Hin'.
  { intros key Hkey. rewrite lookup_delete_ne by (intros ->; done).
    apply Hin. by right. }
  specialize (IH (delete k fc) Hnd Hin').
  rewrite map_size_delete_Some in IH by eauto.
  lia.
Qed.

Lemma age_mono (t t' timestamp : Q) :
  (t <= t')%Q -> (t - timestamp <= t' - timestamp)%Q.
Proof. intros H. unfold Qminus. by apply Qplus_le_l. Qed.

Lemma fresh_earlier max_age_seconds (t t' : Q) kv :
  (t <= t')%Q -> fresh max_age_seconds t' kv -> fresh max_age_seconds t kv.
Proof.
  unfold fresh. intros Hle Hfresh Hlt. apply Hfresh.
  eapply Qlt_le_trans; [exact Hlt | by apply age_mono].
Qed.

(** X10. One iteration of the expiry worker is a filter: it never raises, the
    dictionary it leaves is the one it found restricted to the entries whose
    age is at most [max_age_seconds] (an entry aged exactly
    [max_age_seconds] stays), and the dictionary shrinks by exactly the
    number of keys on the deletion list.  An empty dictionary and one without
    expired entries are left as they are. *)
Theorem expiry_is_filter max_age_seconds current_time first_contacts :
  DictCleaner.iteration max_age_seconds current_time first_contacts =
    (Ok tt, filter (fresh max_age_seconds current_time) first_contacts) /\
  (size (DictCleaner.iteration max_age_seconds current_time first_contacts).2 +
   length (DictCleaner.keys_to_remove max_age_seconds current_time first_contacts)
   = size first_contacts)%nat /\
  DictCleaner.iteration max_age_seconds current_time ∅ = (Ok tt, ∅) /\
  ((forall key timestamp,
      first_contacts !! key = Some timestamp ->
      (current_time - timestamp <= max_age_seconds)%Q) ->
   DictCleaner.iteration max_age_seconds current_time first_contacts =
     (Ok tt, first_contacts)).
Proof.
  split; [apply iteration_filter|]. split; [|split].
  - unfold DictCleaner.iteration. apply remove_keys_size.
    + apply NoDup_keys_to_remove.
    + intros key (timestamp & Hts & _)%elem_of_keys_to_remove. eauto.
  - rewrite iteration_filter. by rewrite map_filter_empty.
  - intros Hall. rewrite iteration_filter. f_equal.
    apply map_filter_id. intros key timestamp Hts. unfold fresh. cbn.
    apply Qle_not_lt. by eapply Hall.
Qed.

Lemma expiry_is_filter_witness :
  DictCleaner.iteration 300 1000 {[Examples.flow 7 := 970%Q]} =
    (Ok tt, {[Examples.flow 7 := 970%Q]}).
Proof.
  destruct (expiry_is_filter 300 1000 {[Examples.flow 7 := 970%Q]})
    as (_ & _ & _ & H).
  apply H. intros key timestamp Hlook.
  apply lookup_singleton_Some in Hlook as [_ <-]. vm_compute. discriminate.
Defined.

(** X11. Expiry composes along time: an iteration at time [t] followed by one
    at a later time [t'] leaves what the iteration at [t'] alone leaves, and
    repeating an iteration at the same reference time changes nothing more.
    What an iteration leaves is always a part of what it found. *)
Theorem expiry_absorbs_earlier max_age_seconds (t t' : Q) first_contacts :
  (t <= t')%Q ->
  let once := (DictCleaner.iteration max_age_seconds t first_contacts).2 in
  DictCleaner.iteration max_age_seconds t' once =
    DictCleaner.iteration max_age_seconds t' first_contacts /\
  DictCleaner.iteration max_age_seconds t once = (Ok tt, once) /\
  once ⊆ first_contacts.
Proof.
  intros Hle once. subst once. rewrite !iteration_filter. cbn [snd].
  split; [|split].
  - f_equal. apply map_filter_filter_l.
    intros key timestamp _. by apply fresh_earlier.
  - f_equal. by apply map_filter_filter_l.
  - apply map_filter_subseteq.
Qed.

Lemma expiry_absorbs_earlier_witness :
  DictCleaner.iteration 300 1000
    (DictCleaner.iteration 300 950 Examples.old_and_new).2 =
  DictCleaner.iteration 300 1000 Examples.old_and_new.
Proof.
  destruct (expiry_absorbs_earlier 300 950 1000 Examples.old_and_new) as [H _].
  - vm_compute. discriminate.
  - exact H.
Defined.

(** ** The analyzer on what the other workers leave *)

Lemma scan_ext current_time (fc1 fc2 : contacts) :
  (forall window source,
     (window <= 300)%Q ->
     fan_out current_time window source fc1 = fan_out current_time window source fc2) ->
  scan current_time fc1 = scan current_time fc2.
Proof.
  intros Hsame. apply map_eq. intros source. rewrite !scan_spec.
  by rewrite !Hsame.
Qed.

Lemma cycle_scan_ext (fc1 fc2 : contacts) current_time blacklist :
  scan current_time fc1 = scan current_time fc2 ->
  cycle fc1 current_time blacklist = cycle fc2 current_time blacklist.
Proof. unfold cycle. by intros ->. Qed.

(** X12. With [max_age_seconds] at least 300 (the default), the expiry worker
    never removes a flow the analyzer would count: after an iteration at time
    [t] the scan at any time [t'] not before [t] stores the same vectors as
    on the dictionary before it, and the cycle gives the same alerts and
    blacklist. *)
Theorem expiry_keeps_what_is_counted max_age_seconds (t t' : Q)
    first_contacts blacklist :
  (300 <= max_age_seconds)%Q -> (t <= t')%Q ->
  let cleaned := (DictCleaner.iteration max_age_seconds t first_contacts).2 in
  scan t' cleaned = scan t' first_contacts /\
  cycle cleaned t' blacklist = cycle first_contacts t' blacklist.
Proof.
  intros Hmax Hle cleaned.
  assert (scan t' cleaned = scan t' first_contacts) as Hscan.
  { subst cleaned. rewrite iteration_filter. cbn [snd].
    apply scan_ext. intros window source Hw. unfold fan_out. do 2 f_equal.
    apply map_filter_filter_l. intros key timestamp _ [_ Hin].
    cbn [snd] in Hin. unfold fresh. cbn [snd]. intros Hold.
    apply (Qlt_irrefl max_age_seconds).
    eapply Qlt_le_trans; [exact Hold|].
    eapply Qle_trans; [apply (age_mono t t' timestamp Hle)|].
    apply Qlt_le_weak. eapply Qlt_le_trans; [exact Hin|].
    eapply Qle_trans; [exact Hw | exact Hmax]. }
  split; [exact Hscan | by apply cycle_scan_ext].
Qed.

Lemma expiry_keeps_what_is_counted_witness :
  scan 1000 (DictCleaner.iteration 300 1000 Examples.old_and_new).2 =
  scan 1000 Examples.old_and_new.
Proof.
  destruct (expiry_keeps_what_is_counted 300 1000 1000 Examples.old_and_new ∅)
    as [H _].
  - vm_compute. discriminate.
  - vm_compute. discriminate.
  - exact H.
Defined.

Lemma fan_out_zero current_time window source first_contacts :
  (forall key timestamp,
     first_contacts !! key = Some timestamp ->
     ~ (current_time - timestamp < window)%Q) ->
  fan_out current_time window source first_contacts = 0.
Proof.
  intros Hold. unfold fan_out.
  replace (filter (in_window current_time window source) first_contacts)
    with (∅ : contacts); [by rewrite map_size_empty|].
  symmetry. apply map_eq. intros key. rewrite lookup_empty.
  apply map_lookup_filter_None_2.
  destruct (first_contacts !! key) as [ts|] eqn:Hts; [right | by left].
  intros timestamp [= <-] [_ Hin]. by apply (Hold key ts).
Qed.

(** X13. A dictionary in which no flow is younger than 300 seconds, the
    empty dictionary included, gives an empty scan: the cycle prints nothing
    and leaves the blacklist as it was. *)
Theorem stale_table_is_silent first_contacts current_time blacklist :
  (forall key timestamp,
     first_contacts !! key = Some timestamp ->
     ~ (current_time - timestamp < 300)%Q) ->
  scan current_time first_contacts = ∅ /\
  cycle first_contacts current_time blacklist = ([], blacklist) /\
  cycle ∅ current_time blacklist = ([], blacklist).
Proof.
  intros Hold.
  assert (scan current_time first_contacts = ∅) as Hscan.
  { apply map_eq. intros source. rewrite scan_spec, lookup_empty.
    unfold stored. by rewrite (fan_out_zero _ 300). }
  split; [exact Hscan|]. split.
  - unfold cycle. rewrite Hscan, map_to_list_empty. reflexivity.
  - reflexivity.
Qed.

Lemma stale_table_is_silent_witness :
  cycle {[Examples.flow 9 := 600%Q]} 1000 ∅ = ([], ∅).
Proof.
  destruct (stale_table_is_silent {[Examples.flow 9 := 600%Q]} 1000 ∅)
    as (_ & H & _).
  - intros key timestamp Hlook.
    apply lookup_singleton_Some in Hlook as [_ <-]. vm_compute. discriminate.
  - exact H.
Defined.

(** ** What alerts say and how many there can be *)

Lemma fan_out_le_flows current_time window source first_contacts :
  fan_out current_time window source first_contacts <=
  Z.of_nat (size (filter (fun kv : flow_key * Q => kv.1.1.1 = source) first_contacts)).
Proof.
  unfold fan_out. apply inj_le. apply map_subseteq_size.
  apply map_filter_subseteq_ext. by intros key timestamp _ [? _].
Qed.

Lemma max_connections_at_least_5 (i : nat) :
  (i < 3)%nat -> 5 <= nth i max_connections 0.
Proof. intros Hi. destruct i as [|[|[|]]]; cbn; lia. Qed.

(** X14. What an alert says, read off the vector stored for its source: the
    reason names the window, the count and the threshold of the reported
    tier, the count being the number of the source's flows younger than that
    window; the three printed rates are index 2 of the vector over 300, index
    1 over 5 and index 0, that is the 5-minute count over 300, the 1-minute
    count over 5 and the 1-second count. *)
Theorem alert_contents first_contacts current_time blacklist a :
  a ∈ (cycle first_contacts current_time blacklist).1 ->
  let count window :=
    fan_out current_time window (alert_source a) first_contacts in
  (alert_tier a < 3)%nat /\
  reason_age a = nth (alert_tier a) ages 0%Q /\
  reason_count a = count (reason_age a) /\
  reason_max a = nth (alert_tier a) max_connections 0 /\
  reason_count a > reason_max a /\
  fanout_per_1s a = (inject_Z (count 300%Q) / 300)%Q /\
  fanout_per_1m a = (inject_Z (count 60%Q) / 5)%Q /\
  fanout_per_5m a = count 1%Q.
Proof.
  intros (counts & i & Hscan & Hc & Ha)%elem_of_cycle count.
  apply compare_thresholds_Some in Hc as (Hi & [Hex _] & _).
  apply scan_Some in Hscan. subst count. rewrite Ha. cbn [alert_tier
    reason_age reason_count reason_max fanout_per_1s fanout_per_1m
    fanout_per_5m report alert_source].
  subst counts. split; [done|]. split; [done|].
  split; [by destruct i as [|[|[|]]]; [| | |lia]|].
  split; [done|]. split; [exact Hex|]. done.
Qed.

Lemma alert_contents_witness :
  Forall (fun a => fanout_per_5m a =
                   fan_out Examples.snapshot_time 1 (alert_source a)
                           Examples.mixed_flows)
         [report Examples.scanner [6; 7; 8] 0].
Proof.
  apply Forall_forall. intros a Ha.
  apply (alert_contents Examples.mixed_flows Examples.snapshot_time ∅ a).
  apply list_elem_of_singleton in Ha as ->.
  apply elem_of_cycle. exists [6; 7; 8], 0%nat.
  repeat split; vm_compute; reflexivity.
Defined.

(** X15. An alert is raised only for a source with more flows in the
    dictionary than the threshold of the reported tier, so with at least six
    flows: a source with five flows or fewer is never reported, whatever the
    blacklist. *)
Theorem alert_needs_six_flows first_contacts current_time blacklist a :
  a ∈ (cycle first_contacts current_time blacklist).1 ->
  let flows :=
    Z.of_nat (size (filter (fun kv : flow_key * Q => kv.1.1.1 = alert_source a)
                           first_contacts)) in
  reason_max a < reason_count a <= flows /\ 6 <= flows.
Proof.
  intros (counts & i & Hscan & Hc & Ha)%elem_of_cycle flows.
  apply compare_thresholds_Some in Hc as (Hi & [Hex _] & _).
  apply scan_Some in Hscan. unfold exceeded in Hex.
  pose proof (max_connections_at_least_5 i Hi) as H5.
  assert (nth i counts 0 <= flows) as Hle.
  { subst counts flows. destruct i as [|[|[|]]]; [| | |lia]; cbn [nth];
      apply fan_out_le_flows. }
  rewrite Ha. cbn [reason_count reason_max report]. lia.
Qed.

Lemma alert_needs_six_flows_witness :
  Forall (fun a =>
            6 <= Z.of_nat (size (filter (fun kv : flow_key * Q =>
                                           kv.1.1.1 = alert_source a)
                                        Examples.six_flows)))
         [report Examples.scanner [6; 6; 6] 0].
Proof.
  apply Forall_forall. intros a Ha.
  apply (alert_needs_six_flows Examples.six_flows Examples.snapshot_time ∅ a).
  apply list_elem_of_singleton in Ha as ->.
  apply elem_of_cycle. exists [6; 6; 6], 0%nat.
  repeat split; vm_compute; reflexivity.
Defined.

Lemma run_from_tiers (trace : list (contacts * Q)) blacklist a :
  a ∈ concat (run_from blacklist trace) -> (alert_tier a < 3)%nat.
Proof.
  revert blacklist.
  induction trace as [|[first_contacts current_time] trace IH]; intros blacklist.
  - cbn. intros H. by apply elem_of_nil in H.
  - cbn [run_from].
    pose proof (elem_of_cycle first_contacts current_time blacklist a) as Hel.
    destruct (cycle first_contacts current_time blacklist) as [printed blacklist'].
    cbn [concat fst] in *. intros [Hin|Hin]%elem_of_app; [|by eapply IH].
    apply Hel in Hin as (counts & i & _ & Hc & ->).
    by apply compare_thresholds_Some in Hc as (Hi & _).
Qed.

Lemma NoDup_tiers_of_source (l : list alert) source :
  Forall (fun a => alert_source a = source) l ->
  NoDup (pair_of <$> l) -> NoDup (alert_tier <$> l).
Proof.
  induction l as [|a l IH]; intros Hall Hnd; [constructor|].
  apply Forall_cons in Hall as [Ha Hall].
  rewrite fmap_cons in *. apply NoDup_cons in Hnd as [Hnot Hnd].
  apply NoDup_cons. split; [|by apply IH].
  intros (a' & Htier & Hin)%list_elem_of_fmap. apply Hnot.
  apply list_elem_of_fmap. exists a'. split; [|done].
  unfold pair_of. rewrite Htier, Ha.
  rewrite Forall_forall in Hall. by rewrite (Hall a' Hin).
Qed.

(** X16. Over a whole run of the analyzer a source is reported at most three
    times: its alerts are for pairwise different tiers among 0, 1 and 2. *)
Theorem at_most_three_alerts_per_source (trace : list (contacts * Q)) source :
  let alerts :=
    filter (fun a => alert_source a = source)
           (concat (FanOutRateCalculator.run trace)) in
  (length alerts <= 3)%nat /\
  NoDup (alert_tier <$> alerts) /\
  Forall (fun a => (alert_tier a < 3)%nat) alerts.
Proof.
  intros alerts.
  assert (Forall (fun a => (alert_tier a < 3)%nat) alerts) as Htiers.
  { apply Forall_forall. intros a [_ Hin]%list_elem_of_filter.
    by eapply run_from_tiers. }
  assert (NoDup (alert_tier <$> alerts)) as Hnd.
  { apply (NoDup_tiers_of_source _ source).
    - apply Forall_forall. by intros a [Hsrc _]%list_elem_of_filter.
    - destruct (run_from_fresh trace ∅) as [Hall _].
      eapply sublist_NoDup; [exact Hall|].
      apply fmap_sublist, sublist_filter. }
  split; [|done].
  rewrite <- (length_fmap alert_tier).
  change 3%nat with (length (seq 0 3)).
  apply submseteq_length, NoDup_submseteq; [done|].
  intros i (a & -> & Hin)%list_elem_of_fmap.
  rewrite Forall_forall in Htiers. apply elem_of_seq.
  specialize (Htiers a Hin). lia.
Qed.

Lemma compare_all_exceeded counts (k : nat) :
  (forall i, (i < 3)%nat -> exceeded counts i) ->
  compare_thresholds (seq 0 (length max_connections)) counts (seq 0 k) =
  if (k <? 3)%nat then Some k else None.
Proof.
  intros Hall. destruct (Nat.ltb_spec k 3) as [Hk|Hk].
  - apply compare_thresholds_Some. split; [done|]. split.
    + split; [by apply Hall|]. rewrite elem_of_seq. lia.
    + intros j Hj [_ Hnot]. apply Hnot. apply elem_of_seq. lia.
  - apply compare_thresholds_None. intros j Hj [_ Hnot]. apply Hnot.
    apply elem_of_seq. lia.
Qed.

Lemma run_from_escalates (trace : list (contacts * Q)) blacklist source (k : nat) :
  (forall first_contacts current_time,
     (first_contacts, current_time) ∈ trace ->
     exists counts,
       scan current_time first_contacts !! source = Some counts /\
       forall i, (i < 3)%nat -> exceeded counts i) ->
  get blacklist source [] = seq 0 k -> (k <= 3)%nat ->
  alert_tier <$> filter (fun a => alert_source a = source)
                        (concat (run_from blacklist trace)) =
  seq k ((3 - k) `min` length trace).
Proof.
  revert blacklist k.
  induction trace as [|[first_contacts current_time] trace IH];
    intros blacklist k Hall Hlisted Hk.
  - cbn. by rewrite Nat.min_0_r.
  - cbn [run_from].
    pose proof (cycle_source first_contacts current_time blacklist source) as Hsrc.
    pose proof (cycle_blacklist first_contacts current_time blacklist source) as Hbl.
    destruct (cycle first_contacts current_time blacklist) as [printed blacklist'].
    cbn [fst snd concat] in *.
    destruct (Hall first_contacts current_time) as (counts & Hscan & Hex); [left|].
    rewrite Hscan, Hlisted, (compare_all_exceeded counts k Hex) in Hsrc.
    rewrite filter_app, fmap_app, Hsrc.
    rewrite Hsrc, Hlisted in Hbl.
    assert (forall fc T, (fc, T) ∈ trace ->
              exists counts, scan T fc !! source = Some counts /\
                             forall i, (i < 3)%nat -> exceeded counts i) as Hall'.
    { intros fc T Hin. apply Hall. by right. }
    destruct (Nat.ltb_spec k 3) as [Hlt|Hge].
    + cbn [fmap list_fmap alert_tier report] in *.
      rewrite <- seq_S in Hbl.
      rewrite (IH blacklist' (S k) Hall' Hbl ltac:(lia)).
      cbn [length app].
      replace ((3 - k) `min` S (length trace))%nat
        with (S ((3 - S k) `min` length trace)) by lia.
      reflexivity.
    + cbn [fmap list_fmap] in *. rewrite app_nil_r in Hbl.
      rewrite (IH blacklist' k Hall' Hbl Hk).
      replace (3 - k)%nat with 0%nat by lia. reflexivity.
Qed.

(** X17. A source that exceeds all three thresholds in every cycle is
    reported once per cycle in the order of the tiers: for the 1-second tier
    in the first cycle, the 1-minute tier in the second and the 5-minute tier
    in the third, and not at all from the fourth cycle on. *)
Theorem tiers_reported_in_order (trace : list (contacts * Q)) source :
  (forall first_contacts current_time,
     (first_contacts, current_time) ∈ trace ->
     exists counts,
       scan current_time first_contacts !! source = Some counts /\
       forall i, (i < 3)%nat -> exceeded counts i) ->
  alert_tier <$> filter (fun a => alert_source a = source)
                        (concat (FanOutRateCalculator.run trace)) =
  seq 0 (3 `min` length trace).
Proof.
  intros Hall. unfold FanOutRateCalculator.run.
  rewrite (run_from_escalates trace ∅ source 0 Hall); [done| |lia].
  unfold get. by rewrite lookup_empty.
Qed.

Lemma tiers_reported_in_order_witness :
  alert_tier <$> filter (fun a => alert_source a = Examples.scanner)
                        (concat (FanOutRateCalculator.run
                           (replicate 4 (MoreExamples.many_flows,
                                         Examples.snapshot_time)))) =
  seq 0 (3 `min` length (replicate 4 (MoreExamples.many_flows,
                                      Examples.snapshot_time))).
Proof.
  apply (tiers_reported_in_order
           (replicate 4 (MoreExamples.many_flows, Examples.snapshot_time))
           Examples.scanner).
  intros first_contacts current_time [Heq _]%elem_of_replicate.
  pose proof (f_equal fst Heq) as Hfc. pose proof (f_equal snd Heq) as Ht.
  cbn [fst snd] in Hfc, Ht. subst first_contacts current_time.
  exists [301; 301; 301]. split; [vm_compute; reflexivity|].
  intros i Hi. unfold exceeded. destruct i as [|[|[|]]]; cbn; lia.
Defined.

(** ** From captured frames to an alert *)

Lemma before_raise_all (trace : list recv_event) :
  Forall (fun ev => event_raises ev = false) trace ->
  before_raise trace = trace /\
  forallb (fun ev => negb (event_raises ev)) trace = true.
Proof.
  induction trace as [|ev trace IH]; intros Hall; [done|].
  apply Forall_cons in Hall as [Hev Hall]. destruct (IH Hall) as [Heq Hb].
  cbn [before_raise forallb]. by rewrite Hev, Heq, Hb.
Qed.

Lemma upserts_elem kvs key timestamp :
  upserts kvs ∅ !! key = Some timestamp -> (key, timestamp) ∈ kvs.
Proof.
  rewrite upserts_lookup.
  destruct (last _) as [[key' ts]|] eqn:Hlast; [|by rewrite lookup_empty].
  intros [= <-]. apply last_filter_elem in Hlast as [Hin Hkey].
  cbn in Hkey. by subst key'.
Qed.

Lemma upserts_size_NoDup kvs :
  NoDup kvs.*1 -> size (upserts kvs ∅) = length kvs.
Proof.
  induction kvs as [|kv kvs IH] using rev_ind; intros Hnd; [done|].
  rewrite fmap_app in Hnd. apply NoDup_app in Hnd as (Hnd & Hnot & _).
  rewrite upserts_snoc, length_app. cbn [length].
  rewrite map_size_insert_None; [rewrite IH by done; lia|].
  destruct (upserts kvs ∅ !! kv.1) as [ts|] eqn:Hl; [|done].
  apply upserts_elem in Hl. destruct (Hnot kv.1).
  - apply list_elem_of_fmap. by exists (kv.1, ts).
  - cbn. left.
Qed.

(** X18. From capture to alert.  When the capture loop, started on an empty
    dictionary, handles a trace without a truncated frame whose recorded keys
    are pairwise different, all from one source, at least six in number and
    all recorded less than one second before the analyzer's clock reading,
    the loop ends normally and the analyzer's first cycle on the dictionary
    it leaves stores the vector [n; n; n] for that source, [n] being the
    number of recorded keys, and reports the source once, for the 1-second
    tier. *)
Theorem captured_burst_is_reported (trace : list recv_event) source current_time :
  Forall (fun ev => event_raises ev = false) trace ->
  NoDup (omap captured trace).*1 ->
  Forall (fun kv : flow_key * Q =>
            kv.1.1.1 = source /\ (current_time - kv.2 < 1)%Q)
         (omap captured trace) ->
  (6 <= length (omap captured trace))%nat ->
  exists first_contacts,
    Sniffer.run trace ∅ = (Ok tt, first_contacts) /\
    scan current_time first_contacts !! source =
      Some (replicate 3 (Z.of_nat (length (omap captured trace)))) /\
    filter (fun a => alert_source a = source)
           (cycle first_contacts current_time ∅).1 =
      [report source (replicate 3 (Z.of_nat (length (omap captured trace)))) 0].
Proof.
  intros Hok Hnd Hall Hsix.
  destruct (before_raise_all trace Hok) as [Hbefore Hno].
  set (kvs := omap captured trace) in *.
  exists (upserts kvs ∅).
  split; [by rewrite run_spec, Hno, Hbefore|].
  rewrite Forall_forall in Hall.
  assert (forall key timestamp,
            upserts kvs ∅ !! key = Some timestamp ->
            key.1.1 = source /\ (current_time - timestamp < 1)%Q) as Hyoung.
  { intros key timestamp Hl%upserts_elem. apply (Hall _ Hl). }
  assert (size (filter (fun kv : flow_key * Q => kv.1.1.1 = source)
                       (upserts kvs ∅)) = length kvs) as Hsize.
  { rewrite map_filter_id; [by apply upserts_size_NoDup|].
    intros key timestamp Hl. by apply Hyoung in Hl as [? _]. }
  assert (scan current_time (upserts kvs ∅) !! source =
          Some (replicate 3 (Z.of_nat (length kvs)))) as Hscan.
  { rewrite scan_spec.
    rewrite (fan_out_all_young _ 1 _ _ (length kvs)); [|done|].
    2: { intros key timestamp Hl _. by apply Hyoung in Hl as [_ ?]. }
    rewrite (fan_out_all_young _ 60 _ _ (length kvs)); [|done|].
    2: { intros key timestamp Hl _. apply Hyoung in Hl as [_ ?].
         eapply Qlt_trans; [done | done]. }
    rewrite (fan_out_all_young _ 300 _ _ (length kvs)); [|done|].
    2: { intros key timestamp Hl _. apply Hyoung in Hl as [_ ?].
         eapply Qlt_trans; [done | done]. }
    unfold stored. destruct (Z.eqb_spec (Z.of_nat (length kvs)) 0); [lia|done]. }
  split; [exact Hscan|].
  rewrite cycle_source, Hscan.
  replace (compare_thresholds (seq 0 (length max_connections))
             (replicate 3 (Z.of_nat (length kvs))) (get ∅ source []))
    with (Some 0%nat); [done|].
  symmetry. apply compare_thresholds_Some. split; [lia|]. split.
  - split; [unfold exceeded; cbn; lia|].
    unfold get. rewrite lookup_empty. apply not_elem_of_nil.
  - intros k Hk. lia.
Qed.

Lemma six_frames_captured :
  omap captured MoreExamples.six_frames =
  Examples.flows_at 1000 [1; 2; 3; 4; 5; 6].
Proof. vm_compute. reflexivity. Qed.

Lemma captured_burst_is_reported_witness :
  exists first_contacts,
    Sniffer.run MoreExamples.six_frames ∅ = (Ok tt, first_contacts) /\
    filter (fun a => alert_source a = Examples.scanner)
           (cycle first_contacts Examples.snapshot_time ∅).1 =
      [report Examples.scanner [6; 6; 6] 0].
Proof.
  destruct (captured_burst_is_reported MoreExamples.six_frames Examples.scanner
              Examples.snapshot_time) as (first_contacts & Hrun & _ & Hreport).
  - repeat first [apply List.Forall_nil
                 | apply List.Forall_cons; [vm_compute; reflexivity|]].
  - rewrite six_frames_captured.
    apply (bool_decide_eq_true_1 _). vm_compute. reflexivity.
  - rewrite six_frames_captured.
    repeat first [apply List.Forall_nil
                 | apply List.Forall_cons; [split; reflexivity|]].
  - rewrite six_frames_captured. cbn. lia.
  - rewrite six_frames_captured in Hreport.
    exists first_contacts. split; [exact Hrun | exact Hreport].
Defined.

(** ** The driver *)

Import PSDetector.

Lemma str_in_xX (x : string) :
  str_in x "xX" = true <->
  x = EmptyString \/ x = "x"%string \/ x = "X"%string \/ x = "xX"%string.
Proof.
  split.
  - destruct x as [|c [|c2 [|c3 x]]]; [by left | | |].
    + cbn. destruct (ascii_dec c "x") as [->|]; [by right; left|].
      destruct (ascii_dec c "X") as [->|]; [by right; right; left|]. done.
    + cbn. destruct (ascii_dec c "x") as [->|];
        [destruct (ascii_dec c2 "X") as [->|]; [by right; right; right|]|].
      * destruct (ascii_dec "x" "X"); done.
      * destruct (ascii_dec c "X"); done.
    + cbn. destruct (ascii_dec c "x") as [->|];
        [destruct (ascii_dec c2 "X") as [->|]|].
      * destruct (ascii_dec "x" "X"); done.
      * destruct (ascii_dec "x" "X"); done.
      * destruct (ascii_dec c "X"); done.
  - intros [-> | [-> | [-> | ->]]]; reflexivity.
Qed.

(** X19. The driver's test [x in 'xX'] is a substring test: the loop is left
    on a line that is empty, [x], [X] or [xX], and on no other line; so
    pressing return on an empty line stops the detector, while [xx] or a
    line with a blank before the [x] does not. *)
Theorem stop_lines (x : string) :
  (str_in x "xX" = true <-> x ∈ [EmptyString; "x"; "X"; "xX"]%string) /\
  ((wait_for_stop [x]).2 = str_in x "xX") /\
  str_in "xx" "xX" = false /\ str_in " x" "xX" = false.
Proof.
  split; [|split; [|done]].
  - rewrite str_in_xX, !elem_of_cons, elem_of_nil. tauto.
  - cbn [wait_for_stop]. by destruct (str_in x "xX").
Qed.

Lemma wait_for_stop_app (before : list string) (rest : list string) :
  Forall (fun x => str_in x "xX" = false) before ->
  wait_for_stop (before ++ rest) =
  ((Input <$> before) ++ (wait_for_stop rest).1, (wait_for_stop rest).2).
Proof.
  induction before as [|x before IH]; intros Hall.
  - cbn. by destruct (wait_for_stop rest).
  - apply Forall_cons in Hall as [Hx Hall]. cbn [app wait_for_stop].
    rewrite Hx, (IH Hall). reflexivity.
Qed.

(** X20. [detect_ps] starts the three workers, prints the prompt and reads
    lines up to the first stop line; the lines after it are not read.  It
    then prints the termination message, clears the three [is_running] flags
    and joins the three workers, each time in the order sniffer, cleaner,
    analyzer, and returns.  When the input ends before a stop line,
    [input()] raises [EOFError] out of [detect_ps]: no flag is cleared and no
    worker is joined. *)
Theorem detect_ps_reads_to_first_stop (before after : list string) (stop : string) :
  Forall (fun x => str_in x "xX" = false) before ->
  (str_in stop "xX" = true ->
   detect_ps (before ++ stop :: after) =
     ([Start SnifferThread; Start CleanupThread; Start FanOutThread;
       Output "[+] Enter 'x' to Stop Detecting"] ++
      (Input <$> before) ++
      [Input stop; Output "[*] Terminating Threads...";
       ClearRunning SnifferThread; ClearRunning CleanupThread;
       ClearRunning FanOutThread;
       Join SnifferThread; Join CleanupThread; Join FanOutThread],
      Returned)) /\
  detect_ps before =
    ([Start SnifferThread; Start CleanupThread; Start FanOutThread;
      Output "[+] Enter 'x' to Stop Detecting"] ++ (Input <$> before),
     EOFError).
Proof.
  intros Hall. split.
  - intros Hstop. unfold detect_ps. rewrite (wait_for_stop_app _ _ Hall).
    cbn [wait_for_stop]. rewrite Hstop. cbn [fst snd].
    by rewrite <- !app_assoc.
  - unfold detect_ps.
    rewrite <- (app_nil_r before) at 1. rewrite (wait_for_stop_app _ _ Hall).
    cbn. by rewrite app_nil_r.
Qed.

Lemma detect_ps_reads_to_first_stop_witness :
  (detect_ps (["q"; "xx"]%string ++ EmptyString :: ["x"]%string)).2 = Returned /\
  (detect_ps ["q"; "xx"]%string).2 = EOFError.
Proof.
  destruct (detect_ps_reads_to_first_stop ["q"; "xx"]%string ["x"]%string
              EmptyString) as [Hstop Heof].
  - repeat first [apply List.Forall_nil | apply List.Forall_cons; [reflexivity|]].
  - split.
    + rewrite Hstop; reflexivity.
    + rewrite Heof. reflexivity.
Defined.

(** ** The port scanner *)

Import PortScanner ScanSpec.






















(** ** The Ethernet header *)

Lemma htons_be_int_2 (a b : byte) :
  htons (be_int [a; b]) = byte_val b * 256 + byte_val a.
Proof.
  rewrite htons_swap by apply be_int_range_2.
  rewrite be_int_2. unfold byte_swap16.
  pose proof (byte_val_range a) as Ha. pose proof (byte_val_range b) as Hb.
  replace ((byte_val a * 256 + byte_val b) mod 256) with (byte_val b)
    by (rewrite Z.add_comm, Z.mod_add by lia; symmetry; apply Z.mod_small; lia).
  replace ((byte_val a * 256 + byte_val b) / 256) with (byte_val a)
    by (rewrite Z.add_comm, Z.div_add by lia; rewrite Z.div_small by lia; lia).
  reflexivity.
Qed.

(** X23. [ethernet_dissect] raises [struct.error] on fewer than 14 bytes and
    otherwise reads fixed offsets: the destination MAC is bytes 0-5, the
    source MAC bytes 6-11 (each printed as 12 characters that read back to
    the six bytes), the payload everything from byte 14 on.  The protocol it
    returns is the EtherType with its two bytes swapped, byte 13 times 256
    plus byte 12; it equals 8, the value the capture loop tests for, exactly
    when bytes 12-13 are 08 00, and it is never the wire value 0x0800
    unless bytes 12-13 are 00 08. *)
Theorem ethernet_dissect_fixed_offsets (ethernet_data : bytes) :
  ((length ethernet_data < 14)%nat ->
   ethernet_dissect ethernet_data = Raise StructError) /\
  ((14 <= length ethernet_data)%nat ->
   exists e1 e0,
     take 2 (drop 12 ethernet_data) = [e1; e0] /\
     ethernet_dissect ethernet_data =
       Ok (mac_format (take 6 ethernet_data),
           mac_format (take 6 (drop 6 ethernet_data)),
           byte_val e0 * 256 + byte_val e1,
           drop 14 ethernet_data) /\
     (byte_val e0 * 256 + byte_val e1 = 8 <-> e1 = x08 /\ e0 = x00) /\
     (byte_val e0 * 256 + byte_val e1 = 2048 <-> e1 = x00 /\ e0 = x08) /\
     String.length (mac_format (take 6 ethernet_data)) = 12%nat /\
     parse_mac (mac_format (take 6 ethernet_data)) = Some (take 6 ethernet_data) /\
     parse_mac (mac_format (take 6 (drop 6 ethernet_data))) =
       Some (take 6 (drop 6 ethernet_data))).
Proof.
  split.
  - intros Hlen. unfold ethernet_dissect.
    by rewrite (struct_unpack_short _ 14 _ Hlen).
  - intros Hlen. rewrite (ethernet_dissect_long _ Hlen).
    assert (exists e1 e0, take 2 (drop 12 ethernet_data) = [e1; e0])
      as (e1 & e0 & Hty).
    { assert (Hl : length (take 2 (drop 12 ethernet_data)) = 2%nat)
        by (rewrite length_take, length_drop; lia).
      destruct (take 2 (drop 12 ethernet_data)) as [|e1 [|e0 [|? ?]]];
        try discriminate Hl.
      by exists e1, e0. }
    exists e1, e0. rewrite Hty, htons_be_int_2.
    pose proof (byte_val_range e1) as H1. pose proof (byte_val_range e0) as H0.
    split; [done|]. split; [done|]. split; [|split; [|split; [|split]]].
    + split.
      * intros Heq. split; apply byte_val_inj.
        -- change (byte_val x08) with 8. lia.
        -- change (byte_val x00) with 0. lia.
      * by intros [-> ->].
    + split.
      * intros Heq. split; apply byte_val_inj.
        -- change (byte_val x00) with 0. lia.
        -- change (byte_val x08) with 8. lia.
      * by intros [-> ->].
    + rewrite length_mac_format, length_take. lia.
    + apply parse_mac_format.
    + apply parse_mac_format.
Qed.

Lemma ethernet_dissect_fixed_offsets_witness :
  ethernet_dissect Examples.short_frame = Raise StructError /\
  exists e1 e0,
    take 2 (drop 12 Examples.arp_frame) = [e1; e0] /\
    String.length (mac_format (take 6 Examples.arp_frame)) = 12%nat.
Proof.
  split.
  - destruct (ethernet_dissect_fixed_offsets Examples.short_frame) as [H _].
    apply H. vm_compute. lia.
  - destruct (ethernet_dissect_fixed_offsets Examples.arp_frame) as [_ H].
    destruct H as (e1 & e0 & Hty & _ & _ & _ & Hlen & _); [vm_compute; lia|].
    exists e1, e0. split; [exact Hty | exact Hlen].
Defined.
